(** * The node-local tensor collector (openfaas/collector-kp/collector.py)

    A shallow embedding of the keep-alive collector: the live-set
    computation, the keep-alive bookkeeping of [get_expired_tensor], the
    lock-protected deletion of [delete_tensors] and the cycle of
    [node_collector], with the properties of its reconciliation and
    eviction engine.

    Conventions of the embedding.
    - A Python [str] is a [string]; a [set] of strings is a [gset string];
      the [dict] from tensor name to [datetime] is a [gmap string Z].
    - A [datetime] is the number of microseconds since the epoch, a
      [timedelta] a number of microseconds ([datetime] has microsecond
      resolution; the year-9999 overflow of [datetime + timedelta] is out
      of reach of [now() + 1 minute] and is left out).
    - Effects are explicit: a computation is a function from the state of
      the world (the two directories, the number of clock readings taken,
      the calls performed so far) to an outcome (a value or a raised
      exception) and the world after it. The dict [keep_alive_dict] is
      passed in and handed back by the functions that mutate it.
    - What the program cannot decide (the clock, which system calls fail,
      the order in which a set is iterated) is an oracle of [Env]. *)

From Stdlib Require Import ZArith String List Bool Lia.
From stdpp Require Import base tactics option list sets gmap strings.

Set Warnings "-clear-no-such-hyp".

Open Scope string_scope.
Open Scope Z_scope.

(** ** Python strings: the [in] operator *)

Module PyStr.

(** [sub in s] on two [str]: [sub] occurs in [s] as a contiguous slice. *)
Fixpoint contains (sub s : string) : bool :=
  if String.prefix sub s then true
  else match s with
       | EmptyString => false
       | String _ s' => contains sub s'
       end.

(** The mathematical reading of "is a substring of". *)
Definition substring_of (sub s : string) : Prop :=
  exists pre post : string, s = pre +:+ sub +:+ post.

(** [c.isspace()] for one character. A character stands for a code point
    below 256; the white space there is tab to carriage return, the four
    separators [\x1c] to [\x1f], the space, [\x85] and [\xa0]. *)
Definition isspace (c : Ascii.ascii) : bool :=
  let n := Ascii.N_of_ascii c in
  ((9 <=? n) && (n <=? 13) || (28 <=? n) && (n <=? 32) || (n =? 133) || (n =? 160))%N.

(** The token read so far, as a list of tokens: none when it is empty. *)
Definition flush (tok : string) : list string :=
  match tok with
  | EmptyString => []
  | _ => [tok]
  end.

(** [s.split()] without argument: the maximal slices without white space,
    in order. [tok] holds the characters of the token under way. *)
Fixpoint split_from (tok : string) (s : string) : list string :=
  match s with
  | EmptyString => flush tok
  | String c s' =>
      if isspace c then flush tok ++ split_from EmptyString s'
      else split_from (tok +:+ String c EmptyString) s'
  end.

Definition split (s : string) : list string := split_from EmptyString s.

(** [s.lstrip()], [s.rstrip()] and [s.strip()] without argument. *)
Fixpoint lstrip (s : string) : string :=
  match s with
  | EmptyString => EmptyString
  | String c s' => if isspace c then lstrip s' else s
  end.

Fixpoint rstrip (s : string) : string :=
  match s with
  | EmptyString => EmptyString
  | String c s' =>
      match rstrip s' with
      | EmptyString => if isspace c then EmptyString else String c EmptyString
      | r => String c r
      end
  end.

Definition strip (s : string) : string := rstrip (lstrip s).

(** [sep.join(l)]. *)
Fixpoint join (sep : string) (l : list string) : string :=
  match l with
  | [] => EmptyString
  | [t] => t
  | t :: l' => t +:+ sep +:+ join sep l'
  end.

(** The characters of a string. *)
Fixpoint chars (s : string) : list Ascii.ascii :=
  match s with
  | EmptyString => []
  | String c s' => c :: chars s'
  end.

End PyStr.

(** ** Constants of the module *)

Definition COLLECT_PERIOD : Z := 5. (* s *)
Definition KEEP_ALIVE : Z := 1.     (* m *)

(** [datetime.timedelta(minutes=m)], in microseconds. *)
Definition timedelta_minutes (m : Z) : Z := m * 60 * 1000000.

(** ** The world the collector runs in *)

(** The calls the collector makes on its surroundings. The two directories
    are [MEMORY_PATH] (the cache) and [LOCK_PATH] (the lock artifacts); a
    tensor name [t] stands for the file [MEMORY_PATH + t] or
    [LOCK_PATH + t] according to the call. *)
Inductive call : Type :=
  | Sleep (secs : Z)            (* time.sleep(secs) *)
  | Listdir                     (* os.listdir(MEMORY_PATH) *)
  | OpenW (t : string)          (* open(LOCK_PATH + t, "w") *)
  | LockEx (t : string)         (* fcntl.lockf(f, fcntl.LOCK_EX) *)
  | Remove (t : string)         (* os.remove(MEMORY_PATH + t) *)
  | Unlock (t : string).        (* fcntl.lockf(f, fcntl.LOCK_UN) *)

#[global] Instance call_eq_dec : EqDecision call.
Proof. solve_decision. Defined.

(** Exceptions that can leave a function of the collector. *)
Inductive exn : Type :=
  | OSError (c : call)          (* the call [c] failed *)
  | KeyError (k : string).      (* [model_tensors[k]] with [k] absent *)

Inductive outcome (A : Type) : Type :=
  | Ok (a : A)
  | Raise (e : exn).
Arguments Ok {A} a.
Arguments Raise {A} e.

(** The two directories, as the sets of their entry names. *)
Record FS : Type := mkFS {
  memory_files : gset string;   (* entries of MEMORY_PATH *)
  lock_files : gset string      (* entries of LOCK_PATH *)
}.

Record World : Type := mkWorld {
  fs : FS;
  ticks : nat;                  (* readings of datetime.now() taken so far *)
  trace : list call             (* calls completed so far, oldest first *)
}.

(** What the surroundings decide. An exclusive [lockf] blocks until the
    lock is granted; the embedding has the call return at that point. *)
Record Env : Type := mkEnv {
  now_at : nat -> Z;            (* the n-th reading of datetime.now() *)
  fails : call -> bool;         (* the calls that raise OSError *)
  set_iter : gset string -> list string;   (* iteration order of a set *)
  set_iter_perm : forall s, set_iter s ≡ₚ elements s
}.

(** ** Computations *)

Definition M (A : Type) : Type := World -> outcome A * World.

Definition ret {A} (a : A) : M A := fun w => (Ok a, w).

Definition bind {A B} (m : M A) (k : A -> M B) : M B :=
  fun w => match m w with
           | (Ok a, w') => k a w'
           | (Raise e, w') => (Raise e, w')
           end.

(** A computation that leaves the world as it is. *)
Definition lift {A} (o : outcome A) : M A := fun w => (o, w).

Declare Scope collector_scope.
Delimit Scope collector_scope with M.
Notation "'let*' x ':=' m 'in' k" := (bind m (fun x => k))
  (at level 10, x name, m at level 100, k at level 200) : collector_scope.
Open Scope collector_scope.

(** [for x in l: acc = body x acc]. *)
Fixpoint for_in {A S} (l : list A) (body : A -> S -> M S) (acc : S) : M S :=
  match l with
  | [] => ret acc
  | x :: l' => let* acc' := body x acc in for_in l' body acc'
  end.

(** ** The calls on the surroundings *)

Section Collector.

Context (env : Env).

(** A call that can fail: it raises [OSError] when the surroundings say
    so, otherwise it acts on the directories and is entered in the trace. *)
Definition syscall (c : call) (effect : FS -> FS) : M unit :=
  fun w =>
    if fails env c then (Raise (OSError c), w)
    else (Ok tt, mkWorld (effect (fs w)) (ticks w) (trace w ++ [c])).

(** [time.sleep(secs)]. *)
Definition time_sleep (secs : Z) : M unit :=
  fun w => (Ok tt, mkWorld (fs w) (ticks w) (trace w ++ [Sleep secs])).

(** [datetime.datetime.now()]: the next reading of the clock. *)
Definition datetime_now : M Z :=
  fun w => (Ok (now_at env (ticks w)), mkWorld (fs w) (S (ticks w)) (trace w)).

(** [os.listdir(MEMORY_PATH)]. The order of the listing is not specified;
    every caller here turns it into a set. *)
Definition os_listdir_memory : M (list string) :=
  fun w =>
    match syscall Listdir id w with
    | (Ok _, w') => (Ok (elements (memory_files (fs w))), w')
    | (Raise e, w') => (Raise e, w')
    end.

(** [os.path.exists(LOCK_PATH + t)] and [os.path.exists(MEMORY_PATH + t)]:
    they never raise. A name exists when its directory lists it; a listed
    name whose path does not resolve (a dangling link), for which the
    program skips the tensor, is not represented. *)
Definition os_path_exists_lock (t : string) : M bool :=
  fun w => (Ok (bool_decide (t ∈ lock_files (fs w))), w).

Definition os_path_exists_memory (t : string) : M bool :=
  fun w => (Ok (bool_decide (t ∈ memory_files (fs w))), w).

(** [open(LOCK_PATH + t, "w")]: creates the file when it is absent and
    empties it when it is there. [FS] holds the names of the files, not
    what is in them, so only the creation shows. *)
Definition open_lock_w (t : string) : M unit :=
  syscall (OpenW t)
    (fun d => mkFS (memory_files d) ({[t]} ∪ lock_files d)).

(** [fcntl.lockf(f, fcntl.LOCK_EX)] and [fcntl.lockf(f, fcntl.LOCK_UN)]
    on the open lock file of [t]. *)
Definition lockf_ex (t : string) : M unit := syscall (LockEx t) id.
Definition lockf_un (t : string) : M unit := syscall (Unlock t) id.

(** [os.remove(MEMORY_PATH + t)]: raises when the file is absent. *)
Definition os_remove_memory (t : string) : M unit :=
  fun w =>
    if bool_decide (t ∈ memory_files (fs w)) then
      syscall (Remove t)
        (fun d => mkFS (memory_files d ∖ {[t]}) (lock_files d)) w
    else (Raise (OSError (Remove t)), w).

(** ** The functions of collector.py *)

(** [get_tensors]: [manifest model] stands for
    [set(f.read().split())] of the file [MODEL_PATH + model]. *)
Definition get_tensors (manifest : string -> gset string)
    (models : list string) : gmap string (gset string) :=
  fold_left (fun model_tensors model => <[model := manifest model]> model_tensors)
            models ∅.

Definition get_existing_tensors : M (gset string) :=
  let* m_files := os_listdir_memory in
  for_in m_files (fun t tensor_set => ret ({[t]} ∪ tensor_set)) ∅.

Fixpoint is_running (model : string) (pods : list string) : bool :=
  match pods with
  | [] => false
  | p :: pods' => if PyStr.contains model p then true else is_running model pods'
  end.

(** One turn of the loop of [get_expired_tensor]; the accumulator is the
    pair of [expired_tensors] and the dict. *)
Definition expire_step (t : string) (acc : gset string * gmap string Z)
    : M (gset string * gmap string Z) :=
  let expired_tensors := acc.1 in
  let keep_alive_dict := acc.2 in
  match keep_alive_dict !! t with
  | Some since =>
      let* now := datetime_now in
      if since + timedelta_minutes KEEP_ALIVE <=? now
      then ret ({[t]} ∪ expired_tensors, keep_alive_dict)
      else ret (expired_tensors, keep_alive_dict)
  | None =>
      let* now := datetime_now in
      ret (expired_tensors, <[t := now]> keep_alive_dict)
  end.

Definition get_expired_tensor (delete_tensor_set : gset string)
    (keep_alive_dict : gmap string Z) : M (gset string * gmap string Z) :=
  for_in (set_iter env delete_tensor_set) expire_step (∅, keep_alive_dict).

(** One turn of the loop of [delete_tensors]. *)
Definition delete_step (t : string) (_ : unit) : M unit :=
  let* lock_there := os_path_exists_lock t in
  let* memory_there := (if lock_there then os_path_exists_memory t else ret false) in
  if memory_there then
    let* _ := open_lock_w t in
    let* _ := lockf_ex t in          (* acquire an exclusive lock *)
    let* _ := os_remove_memory t in
    lockf_un t                       (* unlock *)
  else ret tt.

Definition delete_tensors (expired_tensor_set : gset string) : M unit :=
  for_in (set_iter env expired_tensor_set) delete_step tt.

(** A pod as the API lists it: its name and the node it is scheduled on
    (none while it is pending). *)
Record Pod : Type := mkPod {
  metadata_name : string;
  spec_node_name : option string
}.

Definition running_pods_of (node_name : string) (pod_list : list Pod)
    : list string :=
  metadata_name <$> filter (fun pod => spec_node_name pod = Some node_name) pod_list.

Definition running_models_of (models : list string) (running_pods : list string)
    : list string :=
  filter (fun m => is_running m running_pods = true) models.

(** The loop that unions [model_tensors[m]] over the running models. It
    touches nothing outside; its only failure is a missing key. *)
Definition running_tensors_of (model_tensors : gmap string (gset string))
    (running_models : list string) : outcome (gset string) :=
  fold_left
    (fun acc m =>
       match acc with
       | Ok running_tensor_set =>
           match model_tensors !! m with
           | Some tensors => Ok (running_tensor_set ∪ tensors)
           | None => Raise (KeyError m)
           end
       | Raise e => Raise e
       end)
    running_models (Ok ∅).

(** The body of [while True] in [node_collector], in two parts. The first
    runs from the sleep to the call of [get_expired_tensor] and yields
    [expired_tensor_set] with the dict; [pod_list] is what
    [v1.list_namespaced_pod(namespace)] answered. *)
Definition reconcile (node_name : string) (models : list string)
    (model_tensors : gmap string (gset string))
    (pod_list : list Pod) (keep_alive_dict : gmap string Z)
    : M (gset string * gmap string Z) :=
  let* _ := time_sleep COLLECT_PERIOD in
  let running_pods := running_pods_of node_name pod_list in
  let running_models := running_models_of models running_pods in
  let* running_tensor_set := lift (running_tensors_of model_tensors running_models) in
  let* existing_tensor_set := get_existing_tensors in
  let delete_tensor_set := existing_tensor_set ∖ running_tensor_set in
  get_expired_tensor delete_tensor_set keep_alive_dict.

(** The whole body: the second part hands [expired_tensor_set] to
    [delete_tensors]. The dict is handed back as the loop carries it to
    the next turn. *)
Definition cycle (node_name : string) (models : list string)
    (model_tensors : gmap string (gset string))
    (pod_list : list Pod) (keep_alive_dict : gmap string Z)
    : M (gmap string Z) :=
  let* r := reconcile node_name models model_tensors pod_list keep_alive_dict in
  let expired_tensor_set := r.1 in
  let* _ := delete_tensors expired_tensor_set in
  ret r.2.

(** What reaches one turn of the loop from outside: the answer of the pod
    listing, and what the other processes of the node did to the two
    directories since the turn before. *)
Record Round : Type := mkRound {
  api_pods : list Pod;
  disturb : FS -> FS
}.

Definition others_act (f : FS -> FS) : M unit :=
  fun w => (Ok tt, mkWorld (f (fs w)) (ticks w) (trace w)).

(** The [while True] of [node_collector], for as many turns as there are
    rounds. The loop of the program has no exit: it ends by an exception
    only. *)
Fixpoint node_collector_loop (node_name : string) (models : list string)
    (model_tensors : gmap string (gset string))
    (rounds : list Round) (keep_alive_dict : gmap string Z)
    : M (gmap string Z) :=
  match rounds with
  | [] => ret keep_alive_dict
  | r :: rounds' =>
      let* _ := others_act (disturb r) in
      let* keep_alive_dict' :=
        cycle node_name models model_tensors (api_pods r) keep_alive_dict in
      node_collector_loop node_name models model_tensors rounds' keep_alive_dict'
  end.

(** [node_collector] from its start-up on: [models] is what [get_models]
    listed under [MODEL_PATH], the registry starts empty. *)
Definition node_collector (node_name : string) (models : list string)
    (manifest : string -> gset string) (rounds : list Round)
    : M (gmap string Z) :=
  let model_tensors := get_tensors manifest models in
  let keep_alive_dict := ∅ in
  node_collector_loop node_name models model_tensors rounds keep_alive_dict.

End Collector.

(** ** The start-up of the collector

    What [main] and [node_collector] do before the loop: the node name is
    read from [/root/hostname], the models are listed under [MODEL_PATH]
    and the manifest of each is read and split. A file is given by what
    [f.read()] returns on it; a directory by its listing. *)

Module Startup.

Definition MODEL_PATH : string := "/models/".
Definition HOSTNAME_FILE : string := "/root/hostname".

(** The start-up either gets through or stops at a path that cannot be
    listed or opened. *)
Inductive startup (A : Type) : Type :=
  | Started (a : A)
  | Unreadable (path : string).
Arguments Started {A} a.
Arguments Unreadable {A} path.

(** [get_models]: [listing] is what [os.listdir(MODEL_PATH)] answers,
    [None] when the directory cannot be listed. *)
Definition get_models (listing : option (list string)) : startup (list string) :=
  match listing with
  | Some models => Started models
  | None => Unreadable MODEL_PATH
  end.

(** [get_tensors], reading the files: [entries] holds the text of each
    file under [MODEL_PATH] that can be opened and read. The first model
    whose file is not among them stops it. *)
Definition get_tensors (entries : gmap string string) (models : list string)
    : startup (gmap string (gset string)) :=
  fold_left
    (fun acc model =>
       match acc with
       | Started model_tensors =>
           match entries !! model with
           | Some text =>
               Started (<[model := list_to_set (PyStr.split text)]> model_tensors)
           | None => Unreadable (MODEL_PATH +:+ model)
           end
       | Unreadable path => Unreadable path
       end)
    models (Started ∅).

(** [node_collector] with its start-up: the loop is entered with the
    models listed, their tensors read, and an empty registry. *)
Definition node_collector (env : Env) (node_name : string)
    (listing : option (list string)) (entries : gmap string string)
    (rounds : list Round) : startup (M (gmap string Z)) :=
  match get_models listing with
  | Unreadable path => Unreadable path
  | Started models =>
      match get_tensors entries models with
      | Unreadable path => Unreadable path
      | Started model_tensors =>
          Started (node_collector_loop env node_name models model_tensors rounds ∅)
      end
  end.

(** [main]: [hostname] is the text of [/root/hostname], [None] when it
    cannot be opened. *)
Definition main (env : Env) (hostname : option string)
    (listing : option (list string)) (entries : gmap string string)
    (rounds : list Round) : startup (M (gmap string Z)) :=
  match hostname with
  | None => Unreadable HOSTNAME_FILE
  | Some text => node_collector env (PyStr.strip text) listing entries rounds
  end.

(** The tensors of a model as its file gives them, for the models that
    have one. *)
Definition manifest_of (entries : gmap string string) (model : string)
    : gset string :=
  match entries !! model with
  | Some text => list_to_set (PyStr.split text)
  | None => ∅
  end.

End Startup.

(** ** Vocabulary of the properties *)

(** The grace period: [datetime.timedelta(minutes=KEEP_ALIVE)]. *)
Definition GRACE : Z := timedelta_minutes KEEP_ALIVE.

(** The world after [k] more readings of the clock. *)
Definition tick_by (k : nat) (w : World) : World :=
  mkWorld (fs w) (ticks w + k) (trace w).

(** The world after the calls [evs], which left the cache as [mem]. *)
Definition after_calls (mem : gset string) (evs : list call) (w : World) : World :=
  mkWorld (mkFS mem (lock_files (fs w))) (ticks w) (trace w ++ evs).

(** The calls of one complete eviction of [t]. *)
Definition critical_section (t : string) : list call :=
  [OpenW t; LockEx t; Remove t; Unlock t].

(** Replays a sequence of calls against the set of exclusive locks held:
    [None] as soon as a cache file is removed while its lock is not held,
    otherwise the locks held at the end. *)
Fixpoint lock_run (held : gset string) (evs : list call) : option (gset string) :=
  match evs with
  | [] => Some held
  | LockEx t :: evs' => lock_run ({[t]} ∪ held) evs'
  | Unlock t :: evs' => lock_run (held ∖ {[t]}) evs'
  | Remove t :: evs' =>
      if bool_decide (t ∈ held) then lock_run held evs' else None
  | _ :: evs' => lock_run held evs'
  end.

(** How far the eviction of one tensor that has both its files gets: the
    calls completed, the outcome, and whether the cache file is gone. *)
Inductive eviction (env : Env) (t : string)
    : list call -> outcome unit -> bool -> Prop :=
  | ev_open_fails :
      fails env (OpenW t) = true ->
      eviction env t [] (Raise (OSError (OpenW t))) false
  | ev_lock_fails :
      fails env (OpenW t) = false -> fails env (LockEx t) = true ->
      eviction env t [OpenW t] (Raise (OSError (LockEx t))) false
  | ev_remove_fails :
      fails env (OpenW t) = false -> fails env (LockEx t) = false ->
      fails env (Remove t) = true ->
      eviction env t [OpenW t; LockEx t] (Raise (OSError (Remove t))) false
  | ev_unlock_fails :
      fails env (OpenW t) = false -> fails env (LockEx t) = false ->
      fails env (Remove t) = false -> fails env (Unlock t) = true ->
      eviction env t [OpenW t; LockEx t; Remove t] (Raise (OSError (Unlock t))) true
  | ev_done :
      fails env (OpenW t) = false -> fails env (LockEx t) = false ->
      fails env (Remove t) = false -> fails env (Unlock t) = false ->
      eviction env t (critical_section t) (Ok tt) true.

(** The clock never runs backwards. *)
Definition monotone_clock (env : Env) : Prop :=
  forall n m : nat, (n <= m)%nat -> now_at env n <= now_at env m.

(** A name as [split] yields them: not empty, no white space in it. *)
Definition token (t : string) : Prop :=
  t <> "" /\ Forall (fun c => PyStr.isspace c = false) (PyStr.chars t).

(** Nothing but white space. *)
Definition blank (s : string) : Prop :=
  Forall (fun c => PyStr.isspace c = true) (PyStr.chars s).

(** No white space at either end. *)
Definition trimmed (s : string) : Prop :=
  (forall c, head (PyStr.chars s) = Some c -> PyStr.isspace c = false) /\
  (forall c, last (PyStr.chars s) = Some c -> PyStr.isspace c = false).

(** A tensor that [delete_tensors] would try to evict in the world [w]:
    its lock artifact and its cache file are entries of their
    directories. *)
Definition evictable (w : World) (t : string) : Prop :=
  t ∈ lock_files (fs w) /\ t ∈ memory_files (fs w).

#[global] Instance evictable_dec (w : World) (t : string) : Decision (evictable w t).
Proof. unfold evictable. apply _. Defined.

(** ** A node to try the collector on

    Two models, [m1] with the tensors [a], [b] and [m2] with [b], [c]; the
    cache holds [a], [b], [c], [d], each with its lock artifact. *)

Module Scenario.

(** Surroundings where the calls of [bad] fail and no other, and a set is
    iterated in the order of [elements]. *)
Definition surroundings (clock : nat -> Z) (bad : list call) : Env :=
  mkEnv clock (fun c => bool_decide (c ∈ bad)) elements
        (fun s => Permutation_refl (elements s)).

Definition second : Z := 1000000.

Definition node : string := "node1".
Definition models : list string := ["m1"; "m2"].

Definition manifest (m : string) : gset string :=
  if String.eqb m "m1" then {["a"; "b"]}
  else if String.eqb m "m2" then {["b"; "c"]}
  else ∅.

Definition model_tensors : gmap string (gset string) := get_tensors manifest models.

Definition pods_m1 : list Pod := [mkPod "pod-m1-xyz" (Some node)].
Definition pods_m1_m2 : list Pod :=
  [mkPod "pod-m1-xyz" (Some node); mkPod "pod-m2-xyz" (Some node)].

Definition cached : gset string := {["a"; "b"; "c"; "d"]}.

(** The world at the start, and the same with the lock artifact of [d]
    missing. *)
Definition world0 : World := mkWorld (mkFS cached cached) 0 [].
Definition world_no_lock_d : World :=
  mkWorld (mkFS cached {["a"; "b"; "c"]}) 0 [].

(** A registry that has tracked [c] and [d] since time 0. *)
Definition tracked : gmap string Z := {["c" := 0; "d" := 0]}.

End Scenario.

(** * Properties *)

(** ** Python strings *)

Lemma prefix_app (sub s : string) :
  String.prefix sub s = true <-> exists post, s = sub +:+ post.
Proof.
  revert s. induction sub as [|a sub IH]; intros s.
  - split; [intros _; exists s; reflexivity|].
    intros _. destruct s; reflexivity.
  - destruct s as [|b s]; simpl.
    + split; [discriminate|]. intros [post H]. discriminate H.
    + destruct (Ascii.ascii_dec a b) as [->|Hne].
      * rewrite IH. split; intros [post H]; exists post.
        -- now rewrite H.
        -- now inversion H.
      * split; [discriminate|]. intros [post H]. inversion H. congruence.
Qed.

Lemma contains_spec (sub s : string) :
  PyStr.contains sub s = true <-> PyStr.substring_of sub s.
Proof.
  induction s as [|b s IH]; cbn [PyStr.contains].
  - destruct (String.prefix sub "") eqn:Hp.
    + split; [intros _|reflexivity].
      apply prefix_app in Hp as [post Hp]. now exists "", post.
    + split; [discriminate|]. intros (pre & post & H).
      destruct pre; [|discriminate H]. simpl in H.
      assert (String.prefix sub "" = true) as Hp'
        by (apply prefix_app; now exists post).
      congruence.
  - destruct (String.prefix sub (String b s)) eqn:Hp.
    + split; [intros _|reflexivity].
      apply prefix_app in Hp as [post Hp]. now exists "", post.
    + rewrite IH. split.
      * intros (pre & post & ->). now exists (String b pre), post.
      * intros (pre & post & H). destruct pre as [|c pre].
        -- simpl in H.
           assert (String.prefix sub (String b s) = true) as Hp'
             by (apply prefix_app; now exists post).
           congruence.
        -- inversion H; subst. now exists pre, post.
Qed.

(** ** The loops, one turn at a time *)

Section Loops.

Context (env : Env).

Lemma set_iter_NoDup (s : gset string) : NoDup (set_iter env s).
Proof. rewrite (set_iter_perm env s). apply NoDup_elements. Qed.

Lemma elem_of_set_iter (s : gset string) (t : string) :
  t ∈ set_iter env s <-> t ∈ s.
Proof. rewrite (set_iter_perm env s). apply elem_of_elements. Qed.

Lemma for_in_app {A S} (l1 l2 : list A) (body : A -> S -> M S) (acc : S) (w : World) :
  for_in (l1 ++ l2) body acc w =
  match for_in l1 body acc w with
  | (Ok acc1, w1) => for_in l2 body acc1 w1
  | (Raise e, w1) => (Raise e, w1)
  end.
Proof.
  revert acc w. induction l1 as [|x l1 IH]; intros acc w; [reflexivity|].
  cbn [app for_in]. unfold bind.
  destruct (body x acc w) as [[acc1|e] w1]; [apply IH|reflexivity].
Qed.

Lemma expire_step_eq (t : string) (e : gset string) (d : gmap string Z) (w : World) :
  expire_step env t (e, d) w =
  (Ok (match d !! t with
       | Some since =>
           if since + GRACE <=? now_at env (ticks w) then ({[t]} ∪ e, d) else (e, d)
       | None => (e, <[t := now_at env (ticks w)]> d)
       end), tick_by 1 w).
Proof.
  unfold expire_step, bind, datetime_now, ret, tick_by, GRACE; simpl.
  replace (ticks w + 1)%nat with (S (ticks w)) by lia.
  destruct (d !! t) as [since|]; [|reflexivity].
  destruct (_ <=? _); reflexivity.
Qed.

(** The whole loop of [get_expired_tensor] on a sequence without
    repetition: it returns, reads the clock once per turn, keeps every
    entry of the dict, stamps the absent names with the reading of their
    turn, and expires exactly the names whose entry is old enough at the
    reading of their turn. *)
Lemma expire_loop (l : list string) :
  NoDup l ->
  forall (e : gset string) (d : gmap string Z) (w : World), exists e' d',
    for_in l (expire_step env) (e, d) w = (Ok (e', d'), tick_by (length l) w) /\
    (forall t,
       match d !! t with
       | Some since => d' !! t = Some since
       | None =>
           ((t ∉ l) /\ d' !! t = None) \/
           (exists i, l !! i = Some t /\ d' !! t = Some (now_at env (ticks w + i)))
       end) /\
    (forall t, t ∈ e' ↔
       (t ∈ e \/
        exists i since, l !! i = Some t /\ d !! t = Some since /\
                        since + GRACE <= now_at env (ticks w + i))).
Proof.
  induction 1 as [|x l Hx Hnd IH]; intros e d w.
  - exists e, d. simpl. unfold ret, tick_by.
    replace (ticks w + 0)%nat with (ticks w) by lia. destruct w; simpl.
    split; [reflexivity|]. split.
    + intros t. destruct (d !! t); [done|]. left. split; [|done]. apply not_elem_of_nil.
    + intros t. split; [auto|]. intros [?|(i & since & Hi & _)]; [done|discriminate Hi].
  - cbn [for_in]. unfold bind at 1. rewrite expire_step_eq.
    set (acc := match d !! x with Some _ => _ | None => _ end).
    destruct (IH acc.1 acc.2 (tick_by 1 w)) as (e' & d' & Hrun & Hd & He).
    exists e', d'. rewrite <- surjective_pairing in Hrun.
    split.
    { rewrite Hrun. f_equal. unfold tick_by; simpl. f_equal. lia. }
    assert (Hacc2 : forall t, t <> x -> acc.2 !! t = d !! t).
    { intros t Ht. subst acc. destruct (d !! x) as [since|]; simpl.
      - destruct (_ <=? _); reflexivity.
      - by rewrite lookup_insert_ne. }
    assert (Hshift : forall i, (ticks (tick_by 1 w) + i = ticks w + S i)%nat)
      by (intros i; simpl; lia).
    split.
    + intros t. specialize (Hd t). destruct (decide (t = x)) as [->|Hne].
      * subst acc. destruct (d !! x) as [since|] eqn:Hdx.
        -- destruct (_ <=? _); simpl in Hd; by rewrite Hdx in Hd.
        -- simpl in Hd. rewrite lookup_insert_eq in Hd. right. exists 0%nat.
           split; [done|]. by replace (ticks w + 0)%nat with (ticks w) by lia.
      * rewrite Hacc2 in Hd by done. destruct (d !! t) as [since|]; [done|].
        destruct Hd as [[Hnl Hnone]|(i & Hi & Hv)].
        -- left. split; [|done]. by apply not_elem_of_cons.
        -- right. exists (S i). split; [done|]. by rewrite <- Hshift.
    + intros t. rewrite He. clear He Hd Hrun. split.
      * intros [Ht|(i & since & Hi & Hs & Hle)].
        -- subst acc. destruct (d !! x) as [since|] eqn:Hdx; simpl in Ht; [|by left].
           destruct (since + GRACE <=? now_at env (ticks w)) eqn:Hcmp;
             simpl in Ht; [|by left].
           apply elem_of_union in Ht as [Ht|Ht]; [|by left].
           apply elem_of_singleton in Ht as ->. right.
           exists 0%nat, since. split; [done|]. split; [done|].
           replace (ticks w + 0)%nat with (ticks w) by lia. by apply Z.leb_le.
        -- right. assert (t <> x) as Hne.
           { intros ->. apply Hx. by eapply list_elem_of_lookup_2. }
           rewrite Hacc2 in Hs by done. rewrite Hshift in Hle.
           by exists (S i), since.
      * intros [Ht|(i & since & Hi & Hs & Hle)].
        -- left. subst acc. destruct (d !! x); simpl; [|done].
           destruct (_ <=? _); simpl; set_solver.
        -- destruct i as [|i]; simpl in Hi.
           ++ left. injection Hi as ->.
              replace (ticks w + 0)%nat with (ticks w) in Hle by lia.
              subst acc. rewrite Hs. apply Z.leb_le in Hle. rewrite Hle. simpl. set_solver.
           ++ right. assert (t <> x) as Hne.
              { intros ->. apply Hx. by eapply list_elem_of_lookup_2. }
              exists i, since. rewrite Hacc2 by done. by rewrite Hshift.
Qed.

(** [get_expired_tensor] in one statement. The position [i] of a name in
    the iteration of the set decides which reading of the clock it meets. *)
Lemma get_expired_tensor_spec (s : gset string) (d : gmap string Z) (w : World) :
  exists e' d',
    get_expired_tensor env s d w = (Ok (e', d'), tick_by (size s) w) /\
    (forall t,
       match d !! t with
       | Some since => d' !! t = Some since
       | None =>
           ((t ∉ s) /\ d' !! t = None) \/
           (exists i, set_iter env s !! i = Some t /\
                      d' !! t = Some (now_at env (ticks w + i)))
       end) /\
    (forall t, t ∈ e' ↔
       exists i since, set_iter env s !! i = Some t /\ d !! t = Some since /\
                       since + GRACE <= now_at env (ticks w + i)).
Proof.
  destruct (expire_loop (set_iter env s) (set_iter_NoDup s) ∅ d w)
    as (e' & d' & Hrun & Hd & He).
  exists e', d'. unfold get_expired_tensor.
  assert (length (set_iter env s) = size s) as Hlen
    by (by rewrite (set_iter_perm env s)).
  rewrite Hlen in Hrun. split; [done|]. split.
  - intros t. specialize (Hd t). destruct (d !! t); [done|].
    by rewrite elem_of_set_iter in Hd.
  - intros t. rewrite He. split; [|auto]. intros [Ht|Ht]; [|done]. set_solver.
Qed.

Lemma position_in_iter (s : gset string) (t : string) (i : nat) :
  set_iter env s !! i = Some t -> t ∈ s /\ (i < size s)%nat.
Proof.
  intros Hi. split.
  - apply elem_of_set_iter. by eapply list_elem_of_lookup_2.
  - apply lookup_lt_Some in Hi. by rewrite (set_iter_perm env s) in Hi.
Qed.

End Loops.

(** ** The evictor *)

Section Evictor.

Context (env : Env).

Lemma lock_run_app (held : gset string) (evs1 evs2 : list call) :
  lock_run held (evs1 ++ evs2) =
  match lock_run held evs1 with
  | Some held1 => lock_run held1 evs2
  | None => None
  end.
Proof.
  revert held. induction evs1 as [|c evs1 IH]; intros held; [reflexivity|].
  destruct c; cbn [app lock_run]; try apply IH.
  destruct (bool_decide _); [apply IH|reflexivity].
Qed.

(** An eviction, however far it gets, removes the cache file only with the
    lock held, and a complete one gives the lock back. *)
Lemma eviction_lock_run (t : string) (evs : list call) (r : outcome unit) (gone : bool) :
  eviction env t evs r gone ->
  exists held, lock_run ∅ evs = Some held /\ (r = Ok tt -> held = ∅).
Proof.
  assert (t ∈ ({[t]} ∪ ∅ : gset string)) as Hin by set_solver.
  destruct 1; cbn [critical_section lock_run];
    rewrite ?(bool_decide_eq_true_2 _ Hin); eexists; (split; [reflexivity|]);
    try discriminate.
  intros _. set_solver.
Qed.

Lemma eviction_calls (t : string) (evs : list call) (r : outcome unit) (gone : bool) :
  eviction env t evs r gone ->
  (forall c, c ∈ evs -> c ∈ critical_section t) /\
  (Remove t ∈ evs <-> gone = true) /\
  (forall t', Remove t' ∈ evs -> t' = t).
Proof.
  destruct 1; unfold critical_section; repeat split; intros;
    repeat match goal with
           | H : _ ∈ [] |- _ => inversion H
           | H : _ ∈ _ :: _ |- _ => apply elem_of_cons in H as [H|H]
           | H : Remove _ = Remove _ |- _ => injection H as ->
           end;
    try discriminate; try congruence; subst; set_solver.
Qed.

(** One turn of [delete_tensors]: without both files nothing happens;
    with both, an eviction is attempted. *)
Lemma delete_step_spec (t : string) (w : World) :
  ((t ∉ lock_files (fs w) \/ t ∉ memory_files (fs w)) /\
   delete_step env t tt w = (Ok tt, w)) \/
  (t ∈ lock_files (fs w) /\ t ∈ memory_files (fs w) /\
   exists evs r gone,
     eviction env t evs r gone /\
     delete_step env t tt w =
       (r, after_calls (if gone then memory_files (fs w) ∖ {[t]}
                        else memory_files (fs w)) evs w)).
Proof.
  unfold delete_step, bind, os_path_exists_lock, os_path_exists_memory, ret.
  destruct (decide (t ∈ lock_files (fs w))) as [Hl|Hl];
    [|left; split; [by left|]; by rewrite bool_decide_eq_false_2].
  rewrite (bool_decide_eq_true_2 _ Hl).
  destruct (decide (t ∈ memory_files (fs w))) as [Hm|Hm];
    [|left; split; [by right|]; by rewrite bool_decide_eq_false_2].
  rewrite (bool_decide_eq_true_2 _ Hm).
  right. split; [done|]. split; [done|].
  assert ({[t]} ∪ lock_files (fs w) = lock_files (fs w)) as Hsame by set_solver.
  destruct w as [[mem lk] n tr]; simpl in *.
  unfold open_lock_w, lockf_ex, lockf_un, os_remove_memory, syscall, after_calls; simpl.
  destruct (fails env (OpenW t)) eqn:F1.
  { exists [], (Raise (OSError (OpenW t))), false.
    split; [by constructor|]. by rewrite app_nil_r. }
  simpl. destruct (fails env (LockEx t)) eqn:F2.
  { exists [OpenW t], (Raise (OSError (LockEx t))), false.
    split; [by constructor|]. by rewrite Hsame. }
  simpl. rewrite (bool_decide_eq_true_2 _ Hm).
  destruct (fails env (Remove t)) eqn:F3.
  { exists [OpenW t; LockEx t], (Raise (OSError (Remove t))), false.
    split; [by constructor|]. rewrite Hsame. by rewrite <- app_assoc. }
  simpl. destruct (fails env (Unlock t)) eqn:F4.
  { exists [OpenW t; LockEx t; Remove t], (Raise (OSError (Unlock t))), true.
    split; [by constructor|]. rewrite Hsame. by rewrite <- !app_assoc. }
  exists (critical_section t), (Ok tt), true.
  split; [by constructor|]. rewrite Hsame. by rewrite <- !app_assoc.
Qed.

(** The whole loop of [delete_tensors] on any sequence of names. *)
Lemma delete_loop (l : list string) (w : World) :
  exists r mem evs,
    for_in l (delete_step env) tt w = (r, after_calls mem evs w) /\
    (forall t, t ∈ mem <-> (t ∈ memory_files (fs w) /\ Remove t ∉ evs)) /\
    (forall t, Remove t ∈ evs ->
       t ∈ l /\ t ∈ lock_files (fs w) /\ t ∈ memory_files (fs w)) /\
    (forall c, c ∈ evs -> exists t,
       t ∈ l /\ t ∈ lock_files (fs w) /\ t ∈ memory_files (fs w) /\
       c ∈ critical_section t) /\
    (exists held, lock_run ∅ evs = Some held /\ (r = Ok tt -> held = ∅)).
Proof.
  revert w. induction l as [|x l IH]; intros w.
  - exists (Ok tt), (memory_files (fs w)), []. simpl.
    unfold ret, after_calls. rewrite app_nil_r. destruct w as [[mem lk] n tr]; simpl.
    split; [done|]. split; [set_solver|]. split; [set_solver|]. split; [set_solver|].
    by exists ∅.
  - cbn [for_in]. unfold bind at 1.
    destruct (delete_step_spec x w)
      as [[Hno ->]|(Hl & Hm & evs1 & r1 & gone & Hev & ->)].
    + destruct (IH w) as (r & mem & evs & Hrun & Hmem & Hrm & Hc & Hlock).
      exists r, mem, evs. split; [done|]. split; [done|].
      split; [intros t Ht; destruct (Hrm t Ht) as (? & ? & ?); set_solver|].
      split; [|done].
      intros c Hcin. destruct (Hc c Hcin) as (t & ? & ? & ? & ?).
      exists t. set_solver.
    + pose proof (eviction_calls _ _ _ _ Hev) as (Hcs & Hgone & Honly).
      pose proof (eviction_lock_run _ _ _ _ Hev) as (held1 & Hrun1 & Hheld1).
      set (mem1 := if gone then memory_files (fs w) ∖ {[x]} else memory_files (fs w)).
      assert (Hmem1 : forall t, t ∈ mem1 <-> (t ∈ memory_files (fs w) /\ Remove t ∉ evs1)).
      { intros t. subst mem1. destruct gone.
        - rewrite elem_of_difference, elem_of_singleton.
          split; [intros [? Hne]; split; [done|]; intros Hr; by apply Hne, Honly|].
          intros [? Hnr]. split; [done|]. intros ->. apply Hnr. by apply Hgone.
        - split; [|by intros [? _]]. intros ?. split; [done|].
          intros Hr. pose proof (Honly _ Hr) as ->. apply Hgone in Hr. discriminate. }
      destruct r1 as [[]|e1].
      * destruct (IH (after_calls mem1 evs1 w))
          as (r & mem & evs & Hrun & Hmem & Hrm & Hc & held & Hlock & Hheld).
        exists r, mem, (evs1 ++ evs)%list. simpl in *.
        split; [rewrite Hrun; unfold after_calls; simpl; by rewrite app_assoc|].
        split.
        { intros t. rewrite Hmem, Hmem1, not_elem_of_app. tauto. }
        split.
        { intros t Ht. apply elem_of_app in Ht as [Ht|Ht].
          - apply Honly in Ht as ->. set_solver.
          - destruct (Hrm t Ht) as (? & ? & Hin). apply Hmem1 in Hin. set_solver. }
        split.
        { intros c Hcin. apply elem_of_app in Hcin as [Hcin|Hcin].
          - exists x. set_solver.
          - destruct (Hc c Hcin) as (t & ? & ? & Hin & ?). apply Hmem1 in Hin.
            exists t. set_solver. }
        exists held. rewrite lock_run_app, Hrun1, (Hheld1 eq_refl). done.
      * exists (Raise e1), mem1, evs1.
        split; [done|]. split; [done|].
        split; [intros t Ht; apply Honly in Ht as ->; set_solver|].
        split; [intros c Hcin; exists x; set_solver|].
        exists held1. split; [done|discriminate].
Qed.

End Evictor.

(** ** The live set and the cycle *)

Section Cycle.

Context (env : Env).

Lemma is_running_spec (model : string) (pods : list string) :
  is_running model pods = true <->
  exists p, p ∈ pods /\ PyStr.substring_of model p.
Proof.
  induction pods as [|p pods IH]; simpl.
  - split; [discriminate|]. intros (p & Hp & _). inversion Hp.
  - destruct (PyStr.contains model p) eqn:Hc.
    + split; [intros _|done]. exists p. split; [left|].
      by apply contains_spec.
    + rewrite IH. split.
      * intros (q & Hq & Hsub). exists q. split; [by right|done].
      * intros (q & Hq & Hsub). apply elem_of_cons in Hq as [->|Hq].
        -- apply contains_spec in Hsub. congruence.
        -- by exists q.
Qed.

Lemma elem_of_running_models (models pods : list string) (m : string) :
  m ∈ running_models_of models pods <-> (m ∈ models /\ is_running m pods = true).
Proof. unfold running_models_of. rewrite list_elem_of_filter. tauto. Qed.

Lemma elem_of_running_pods (node_name : string) (pod_list : list Pod) (p : string) :
  p ∈ running_pods_of node_name pod_list <->
  exists pod, pod ∈ pod_list /\ spec_node_name pod = Some node_name /\
              metadata_name pod = p.
Proof.
  unfold running_pods_of. rewrite list_elem_of_fmap. split.
  - intros (pod & -> & Hin). apply list_elem_of_filter in Hin as [? ?]. by exists pod.
  - intros (pod & Hin & Hn & <-). exists pod. split; [done|].
    by apply list_elem_of_filter.
Qed.

Lemma get_tensors_lookup (manifest : string -> gset string)
    (models : list string) (m : string) :
  get_tensors manifest models !! m =
  if decide (m ∈ models) then Some (manifest m) else None.
Proof.
  unfold get_tensors.
  assert (forall (mt0 : gmap string (gset string)),
    fold_left (fun mt model => <[model := manifest model]> mt) models mt0 !! m =
    if decide (m ∈ models) then Some (manifest m) else mt0 !! m) as Hgen.
  { induction models as [|x models IH]; intros mt0; cbn [fold_left].
    - destruct (decide (m ∈ [])) as [Hin|_]; [inversion Hin|done].
    - rewrite IH. destruct (decide (m ∈ models)) as [Hin|Hnin].
      + by rewrite decide_True by by right.
      + destruct (decide (m = x)) as [->|Hne].
        * rewrite decide_True by left. by rewrite lookup_insert_eq.
        * rewrite decide_False by (by apply not_elem_of_cons).
          by rewrite lookup_insert_ne. }
  rewrite Hgen. by destruct (decide _).
Qed.

(** The union loop on a map that has every running model: it returns the
    union of their tensor sets. *)
Lemma running_tensors_of_spec (model_tensors : gmap string (gset string))
    (running_models : list string) :
  (forall m, m ∈ running_models -> is_Some (model_tensors !! m)) ->
  exists live,
    running_tensors_of model_tensors running_models = Ok live /\
    forall t, t ∈ live <->
      exists m tensors, m ∈ running_models /\ model_tensors !! m = Some tensors /\
                        t ∈ tensors.
Proof.
  unfold running_tensors_of.
  assert (forall (s0 : gset string),
    (forall m, m ∈ running_models -> is_Some (model_tensors !! m)) ->
    exists live,
      fold_left
        (fun acc m =>
           match acc with
           | Ok s => match model_tensors !! m with
                     | Some tensors => Ok (s ∪ tensors)
                     | None => Raise (KeyError m)
                     end
           | Raise e => Raise e
           end) running_models (Ok s0) = Ok live /\
      forall t, t ∈ live <->
        (t ∈ s0 \/ exists m tensors, m ∈ running_models /\
                     model_tensors !! m = Some tensors /\ t ∈ tensors)) as Hgen.
  { induction running_models as [|x l IH]; intros s0 Hall; simpl.
    - exists s0. split; [done|]. intros t. split; [auto|].
      intros [?|(m & ? & Hm & _)]; [done|inversion Hm].
    - destruct (Hall x) as [tensors Hx]; [left|]. rewrite Hx.
      destruct (IH (s0 ∪ tensors)) as (live & Hrun & Hlive).
      { intros m Hm. apply Hall. by right. }
      exists live. split; [done|]. intros t. rewrite Hlive, elem_of_union. split.
      + intros [[?|?]|(m & ts & Hm & Hl & Ht)]; [by left| |].
        * right. exists x, tensors. split; [left|done].
        * right. exists m, ts. split; [by right|done].
      + intros [?|(m & ts & Hm & Hl & Ht)]; [by left; left|].
        apply elem_of_cons in Hm as [->|Hm].
        * left; right. congruence.
        * right. by exists m, ts. }
  intros Hall. destruct (Hgen ∅ Hall) as (live & Hrun & Hlive).
  exists live. split; [done|]. intros t. rewrite Hlive. set_solver.
Qed.

Lemma get_existing_tensors_spec (w : World) :
  get_existing_tensors env w =
  if fails env Listdir then (Raise (OSError Listdir), w)
  else (Ok (memory_files (fs w)), after_calls (memory_files (fs w)) [Listdir] w).
Proof.
  unfold get_existing_tensors, bind, os_listdir_memory, syscall, after_calls.
  destruct (fails env Listdir); [reflexivity|].
  set (w' := mkWorld _ _ _).
  assert (forall (l : list string) (acc : gset string),
    for_in l (fun t tensor_set => ret ({[t]} ∪ tensor_set)) acc w' =
    (Ok (list_to_set l ∪ acc), w')) as Hloop.
  { induction l as [|x l IH]; intros acc; simpl.
    - unfold ret. f_equal. f_equal. set_solver.
    - unfold bind, ret. rewrite IH. f_equal. f_equal. set_solver. }
  rewrite Hloop. subst w'. destruct w as [[mem lk] n tr]; simpl.
  f_equal. f_equal. rewrite list_to_set_elements_L. set_solver.
Qed.

(** The first part of the body of the loop, stage by stage. *)
Lemma reconcile_cases (node_name : string) (models : list string)
    (model_tensors : gmap string (gset string)) (pod_list : list Pod)
    (keep_alive_dict : gmap string Z) (w : World) :
  reconcile env node_name models model_tensors pod_list keep_alive_dict w =
  match running_tensors_of model_tensors
          (running_models_of models (running_pods_of node_name pod_list)) with
  | Raise e => (Raise e, after_calls (memory_files (fs w)) [Sleep COLLECT_PERIOD] w)
  | Ok live =>
      if fails env Listdir
      then (Raise (OSError Listdir),
            after_calls (memory_files (fs w)) [Sleep COLLECT_PERIOD] w)
      else
        get_expired_tensor env (memory_files (fs w) ∖ live) keep_alive_dict
          (after_calls (memory_files (fs w)) [Sleep COLLECT_PERIOD; Listdir] w)
  end.
Proof.
  unfold reconcile, bind at 1, time_sleep. unfold bind at 1, lift.
  destruct w as [[mem lk] n tr]; unfold after_calls; simpl.
  destruct (running_tensors_of _ _) as [live|e]; [|reflexivity].
  unfold bind at 1. rewrite get_existing_tensors_spec. simpl.
  destruct (fails env Listdir); [reflexivity|].
  unfold after_calls; simpl. rewrite <- app_assoc. reflexivity.
Qed.

Lemma cycle_cases (node_name : string) (models : list string)
    (model_tensors : gmap string (gset string)) (pod_list : list Pod)
    (keep_alive_dict : gmap string Z) (w : World) :
  cycle env node_name models model_tensors pod_list keep_alive_dict w =
  match reconcile env node_name models model_tensors pod_list keep_alive_dict w with
  | (Ok r, w3) =>
      match delete_tensors env r.1 w3 with
      | (Ok _, w4) => (Ok r.2, w4)
      | (Raise e, w4) => (Raise e, w4)
      end
  | (Raise e, w3) => (Raise e, w3)
  end.
Proof.
  unfold cycle, bind at 1.
  destruct (reconcile _ _ _ _ _ _ _) as [[r|e] w3]; [|reflexivity].
  unfold bind, ret. destruct (delete_tensors _ _ _) as [[[]|e] w4]; reflexivity.
Qed.

(** A turn whose live set is computed and whose listing succeeds: what
    each part does, in terms of the world at the start of the turn. *)
Lemma cycle_anatomy (node_name : string) (models : list string)
    (model_tensors : gmap string (gset string)) (pod_list : list Pod)
    (keep_alive_dict : gmap string Z) (w : World) (live : gset string) :
  running_tensors_of model_tensors
    (running_models_of models (running_pods_of node_name pod_list)) = Ok live ->
  fails env Listdir = false ->
  let stale := memory_files (fs w) ∖ live in
  let w2 := after_calls (memory_files (fs w)) [Sleep COLLECT_PERIOD; Listdir] w in
  let w3 := tick_by (size stale) w2 in
  exists expired keep_alive_dict' r mem evs,
    get_expired_tensor env stale keep_alive_dict w2 = (Ok (expired, keep_alive_dict'), w3) /\
    reconcile env node_name models model_tensors pod_list keep_alive_dict w =
      (Ok (expired, keep_alive_dict'), w3) /\
    delete_tensors env expired w3 = (r, after_calls mem evs w3) /\
    cycle env node_name models model_tensors pod_list keep_alive_dict w =
      (match r with Ok _ => Ok keep_alive_dict' | Raise e => Raise e end,
       after_calls mem evs w3) /\
    trace (after_calls mem evs w3) = (trace w ++ [Sleep COLLECT_PERIOD; Listdir] ++ evs)%list /\
    ticks (after_calls mem evs w3) = (ticks w + size stale)%nat /\
    memory_files (fs (after_calls mem evs w3)) = mem /\
    lock_files (fs (after_calls mem evs w3)) = lock_files (fs w) /\
    (forall t, t ∈ mem <-> (t ∈ memory_files (fs w) /\ Remove t ∉ evs)) /\
    (forall c, c ∈ evs -> exists t,
       t ∈ expired /\ t ∈ lock_files (fs w) /\ t ∈ memory_files (fs w) /\
       c ∈ critical_section t) /\
    (exists held, lock_run ∅ evs = Some held /\ (r = Ok tt -> held = ∅)).
Proof.
  intros Hlive Hlist stale w2 w3.
  destruct (get_expired_tensor_spec env stale keep_alive_dict w2)
    as (expired & kad' & Hexp & _ & _).
  destruct (delete_loop env (set_iter env expired) w3)
    as (r & mem & evs & Hdel & Hmem & _ & Hc & Hlock).
  exists expired, kad', r, mem, evs.
  assert (reconcile env node_name models model_tensors pod_list keep_alive_dict w =
          (Ok (expired, kad'), w3)) as Hrec
    by (by rewrite reconcile_cases, Hlive, Hlist).
  split; [done|]. split; [done|]. split; [done|]. split.
  { rewrite cycle_cases, Hrec. simpl. unfold delete_tensors. rewrite Hdel.
    by destruct r as [[]|e]. }
  split; [simpl; by rewrite <- app_assoc|].
  split; [done|]. split; [done|]. split; [done|]. split; [done|]. split; [|done].
  intros c Hcin. destruct (Hc c Hcin) as (t & Ht & ? & ? & ?).
  exists t. by rewrite elem_of_set_iter in Ht.
Qed.

End Cycle.

(** ** Turns taken apart *)

(** Opens the result of a call of [get_expired_tensor] into what the call
    did to the dict ([Hd]) and which names it expired ([He]). *)
Ltac expired_facts H Hd He :=
  match type of H with
  | get_expired_tensor ?env ?s ?d ?w = _ =>
      let Hrun := fresh "Hrun" in
      destruct (get_expired_tensor_spec env s d w) as (? & ? & Hrun & Hd & He);
      rewrite Hrun in H; simplify_eq H; clear H; intros; subst
  end.

(** A turn that hands the dict back went through all of its stages. *)
Lemma cycle_ok_inv (env : Env) (node_name : string) (models : list string)
    (model_tensors : gmap string (gset string)) (pod_list : list Pod)
    (keep_alive_dict keep_alive_dict' : gmap string Z) (w w' : World)
    (live : gset string) :
  running_tensors_of model_tensors
    (running_models_of models (running_pods_of node_name pod_list)) = Ok live ->
  cycle env node_name models model_tensors pod_list keep_alive_dict w =
    (Ok keep_alive_dict', w') ->
  exists expired w3,
    fails env Listdir = false /\
    get_expired_tensor env (memory_files (fs w) ∖ live) keep_alive_dict
      (after_calls (memory_files (fs w)) [Sleep COLLECT_PERIOD; Listdir] w) =
      (Ok (expired, keep_alive_dict'), w3) /\
    delete_tensors env expired w3 = (Ok tt, w').
Proof.
  intros Hlive Hcycle. rewrite cycle_cases, reconcile_cases, Hlive in Hcycle.
  destruct (fails env Listdir); [discriminate|].
  destruct (get_expired_tensor _ _ _ _) as [[[expired kad']|e] w3]; [|discriminate].
  simpl in Hcycle.
  destruct (delete_tensors env expired w3) as [[[]|e] w4] eqn:Hdel; [|discriminate].
  simplify_eq Hcycle; intros; subst. by exists expired, w3.
Qed.

Lemma expired_subset (env : Env) (s expired : gset string)
    (d d' : gmap string Z) (w w' : World) :
  get_expired_tensor env s d w = (Ok (expired, d'), w') -> expired ⊆ s.
Proof.
  intros H. expired_facts H Hd He. intros t Ht.
  apply He in Ht as (i & since & Hi & _). by apply position_in_iter in Hi as [? _].
Qed.

Lemma remove_in_critical_section (t t' : string) :
  Remove t ∈ critical_section t' -> t = t'.
Proof.
  unfold critical_section. intros H.
  repeat (apply elem_of_cons in H as [H|H]; [try discriminate H|]);
    [by injection H|inversion H].
Qed.

(** A turn either stops before the listing is done (a missing key or a
    failed listing; only the sleep has happened), or has a live set and a
    listing and goes on as [cycle_anatomy] describes. *)
Lemma cycle_early_or_late (env : Env) (node_name : string) (models : list string)
    (model_tensors : gmap string (gset string)) (pod_list : list Pod)
    (keep_alive_dict : gmap string Z) (w : World) :
  (exists e,
     cycle env node_name models model_tensors pod_list keep_alive_dict w =
       (Raise e, after_calls (memory_files (fs w)) [Sleep COLLECT_PERIOD] w)) \/
  (exists live,
     running_tensors_of model_tensors
       (running_models_of models (running_pods_of node_name pod_list)) = Ok live /\
     fails env Listdir = false).
Proof.
  rewrite cycle_cases, reconcile_cases.
  destruct (running_tensors_of _ _) as [live|e]; [|left; by exists e].
  destruct (fails env Listdir); [left; by eexists|right; by exists live].
Qed.

(** The calls of a turn, past the sleep and the listing, evict only
    tensors that the turn found expired. *)
Lemma cycle_runs (env : Env) (node_name : string) (models : list string)
    (model_tensors : gmap string (gset string)) (pod_list : list Pod)
    (keep_alive_dict : gmap string Z) (w w' : World) (r : outcome (gmap string Z)) :
  cycle env node_name models model_tensors pod_list keep_alive_dict w = (r, w') ->
  exists evs,
    trace w' = (trace w ++ evs)%list /\
    lock_files (fs w') = lock_files (fs w) /\
    (forall t, t ∈ memory_files (fs w') <-> (t ∈ memory_files (fs w) /\ Remove t ∉ evs)) /\
    (forall t, Remove t ∈ evs ->
       exists live expired keep_alive_dict' w3,
         running_tensors_of model_tensors
           (running_models_of models (running_pods_of node_name pod_list)) = Ok live /\
         reconcile env node_name models model_tensors pod_list keep_alive_dict w =
           (Ok (expired, keep_alive_dict'), w3) /\
         get_expired_tensor env (memory_files (fs w) ∖ live) keep_alive_dict
           (after_calls (memory_files (fs w)) [Sleep COLLECT_PERIOD; Listdir] w) =
           (Ok (expired, keep_alive_dict'), w3) /\
         (ticks w' = ticks w3) /\
         t ∈ expired /\ t ∈ lock_files (fs w)).
Proof.
  intros Hcycle.
  destruct (cycle_early_or_late env node_name models model_tensors pod_list
              keep_alive_dict w) as [[e He]|(live & Hlive & Hlist)].
  - rewrite He in Hcycle. simplify_eq Hcycle; intros; subst.
    exists [Sleep COLLECT_PERIOD]. simpl. split; [done|]. split; [done|].
    split; [|intros t Ht; apply list_elem_of_singleton in Ht; discriminate Ht].
    intros t. split; [|tauto]. intros ?. split; [done|].
    intros Ht. apply list_elem_of_singleton in Ht. discriminate Ht.
  - destruct (cycle_anatomy env node_name models model_tensors pod_list
                keep_alive_dict w live Hlive Hlist)
      as (expired & kad' & r0 & mem & evs & Hget & Hrec & Hdel & Hcyc & Htr & Htk
          & Hmf & Hlf & Hmem & Hcalls & _).
    rewrite Hcyc in Hcycle. simplify_eq Hcycle; intros; subst.
    exists ([Sleep COLLECT_PERIOD; Listdir] ++ evs)%list.
    split; [done|]. split; [done|].
    assert (forall t, Remove t ∈ ([Sleep COLLECT_PERIOD; Listdir] ++ evs)%list <->
                      Remove t ∈ evs) as Hsame.
    { intros t. rewrite elem_of_app. split; [|by right].
      intros [Ht|Ht]; [|done].
      repeat (apply elem_of_cons in Ht as [Ht|Ht]; [discriminate Ht|]). inversion Ht. }
    split.
    { intros t. rewrite Hmf, Hmem, Hsame. done. }
    intros t Ht. apply Hsame in Ht.
    destruct (Hcalls _ Ht) as (t' & Hexp & Hlk & _ & Hcs).
    apply remove_in_critical_section in Hcs as ->.
    exists live, expired, kad', (tick_by (size (memory_files (fs w) ∖ live))
      (after_calls (memory_files (fs w)) [Sleep COLLECT_PERIOD; Listdir] w)).
    done.
Qed.

(** Whatever a turn removes is cached and not live. *)
Lemma cycle_removes_stale (env : Env) (node_name : string) (models : list string)
    (model_tensors : gmap string (gset string)) (pod_list : list Pod)
    (keep_alive_dict : gmap string Z) (w w' : World) (r : outcome (gmap string Z))
    (live : gset string) :
  running_tensors_of model_tensors
    (running_models_of models (running_pods_of node_name pod_list)) = Ok live ->
  cycle env node_name models model_tensors pod_list keep_alive_dict w = (r, w') ->
  exists evs,
    trace w' = (trace w ++ evs)%list /\
    (forall t, Remove t ∈ evs -> t ∈ memory_files (fs w) ∖ live) /\
    (forall t, t ∈ live -> t ∈ memory_files (fs w) -> t ∈ memory_files (fs w')).
Proof.
  intros Hlive Hcycle.
  destruct (cycle_runs _ _ _ _ _ _ _ _ _ Hcycle) as (evs & Htr & _ & Hmem & Hrm).
  assert (forall t, Remove t ∈ evs -> t ∈ memory_files (fs w) ∖ live) as Hstale.
  { intros t Ht.
    destruct (Hrm t Ht) as (live' & expired & kad' & w3 & Hlive' & _ & Hget & _ & Hexp & _).
    rewrite Hlive in Hlive'. injection Hlive' as <-.
    by apply (expired_subset _ _ _ _ _ _ _ Hget). }
  exists evs. split; [done|]. split; [done|].
  intros t Hl Hc. apply Hmem. split; [done|].
  intros Ht. apply Hstale in Ht. set_solver.
Qed.

Lemma critical_section_inj (c : call) (t t' : string) :
  c ∈ critical_section t -> c ∈ critical_section t' -> t = t'.
Proof.
  unfold critical_section. intros H H'.
  repeat (apply elem_of_cons in H as [H|H]; [subst c|]); [| | | |inversion H];
    repeat (apply elem_of_cons in H' as [H'|H']; [try discriminate H'|]);
    try (by injection H'); inversion H'.
Qed.

(** [delete_tensors] on a set, in terms of the world it starts in. *)
Lemma delete_tensors_spec (env : Env) (expired : gset string) (w : World) :
  exists r mem evs,
    delete_tensors env expired w = (r, after_calls mem evs w) /\
    (forall t, t ∈ mem <-> (t ∈ memory_files (fs w) /\ Remove t ∉ evs)) /\
    (forall c, c ∈ evs -> exists t,
       t ∈ expired /\ t ∈ lock_files (fs w) /\ t ∈ memory_files (fs w) /\
       c ∈ critical_section t) /\
    (exists held, lock_run ∅ evs = Some held /\ (r = Ok tt -> held = ∅)).
Proof.
  destruct (delete_loop env (set_iter env expired) w)
    as (r & mem & evs & Hdel & Hmem & _ & Hc & Hlock).
  exists r, mem, evs. split; [done|]. split; [done|]. split; [|done].
  intros c Hcin. destruct (Hc c Hcin) as (t & Ht & ?).
  exists t. by rewrite elem_of_set_iter in Ht.
Qed.

(** A tensor that lacks one of its two files is left alone by
    [delete_tensors]: none of the calls of an eviction is made on it, and
    its cache file, if any, stays. *)
Lemma delete_tensors_skips (env : Env) (expired : gset string) (w w' : World)
    (r : outcome unit) (t : string) :
  delete_tensors env expired w = (r, w') ->
  t ∉ lock_files (fs w) \/ t ∉ memory_files (fs w) ->
  exists evs,
    trace w' = (trace w ++ evs)%list /\
    (forall c, c ∈ critical_section t -> c ∉ evs) /\
    (t ∈ memory_files (fs w') <-> t ∈ memory_files (fs w)) /\
    lock_files (fs w') = lock_files (fs w) /\
    ticks w' = ticks w.
Proof.
  intros Hdel Hmiss.
  destruct (delete_tensors_spec env expired w) as (r0 & mem & evs & Hrun & Hmem & Hc & _).
  rewrite Hrun in Hdel. simplify_eq Hdel; intros; subst.
  assert (forall c, c ∈ critical_section t -> c ∉ evs) as Hnone.
  { intros c Hcs Hcin. destruct (Hc c Hcin) as (t' & _ & Hl & Hm & Hcs').
    rewrite (critical_section_inj _ _ _ Hcs Hcs') in Hmiss. tauto. }
  exists evs. split; [done|]. split; [done|]. split; [|done].
  simpl. rewrite Hmem. split; [tauto|]. intros ?. split; [done|].
  apply Hnone. unfold critical_section. set_solver.
Qed.

(** The loop of [node_collector] hands on every entry it was given. *)
Lemma node_collector_loop_keeps (env : Env) (node_name : string)
    (models : list string) (model_tensors : gmap string (gset string))
    (rounds : list Round) :
  forall (keep_alive_dict keep_alive_dict' : gmap string Z) (w w' : World),
    node_collector_loop env node_name models model_tensors rounds keep_alive_dict w =
      (Ok keep_alive_dict', w') ->
    forall t since, keep_alive_dict !! t = Some since ->
                    keep_alive_dict' !! t = Some since.
Proof.
  induction rounds as [|round rounds IH]; intros d d' w w' Hloop t since Hs.
  - simpl in Hloop. unfold ret in Hloop. by simplify_eq Hloop; intros; subst.
  - cbn [node_collector_loop] in Hloop. unfold bind at 1, others_act in Hloop.
    unfold bind at 1 in Hloop.
    destruct (cycle env node_name models model_tensors (api_pods round) d _)
      as [[d1|e] w1] eqn:Hcycle; [|discriminate].
    apply (IH _ _ _ _ Hloop).
    destruct (cycle_early_or_late env node_name models model_tensors (api_pods round) d
                (mkWorld (disturb round (fs w)) (ticks w) (trace w)))
      as [[e He]|(live & Hlive & _)]; [rewrite He in Hcycle; discriminate Hcycle|].
    destruct (cycle_ok_inv _ _ _ _ _ _ _ _ _ _ Hlive Hcycle) as (exp & w3 & _ & Hget & _).
    expired_facts Hget Hd He. specialize (Hd t). by rewrite Hs in Hd.
Qed.

(** ** The scenarios of the specification, run *)

(** The replay of locks tells a removal under its lock from one outside:
    without the lock, after the lock was given back, or under the lock of
    another tensor. *)
Example lock_run_inside :
  lock_run ∅ (critical_section "a") = Some ∅.
Proof. vm_compute. reflexivity. Qed.

Example lock_run_outside :
  lock_run ∅ [OpenW "a"; Remove "a"] = None /\
  lock_run ∅ [OpenW "a"; LockEx "a"; Unlock "a"; Remove "a"] = None /\
  lock_run ∅ [OpenW "b"; LockEx "b"; Remove "a"; Unlock "b"] = None.
Proof. repeat split; vm_compute; reflexivity. Qed.

(** Python's [in] on the names of the scenario. *)
Example contains_examples :
  PyStr.contains "m1" "pod-m1-xyz" = true /\
  PyStr.contains "m2" "pod-m1-xyz" = false /\
  PyStr.contains "" "pod" = true /\
  PyStr.contains "pod-m1-xyz" "m1" = false.
Proof. repeat split; vm_compute; reflexivity. Qed.

(** First turn, time 0, registry empty: [c] and [d] are stamped, nothing
    is removed. *)
Example scenario_first_turn :
  cycle (Scenario.surroundings (fun _ => 0) []) Scenario.node Scenario.models
    Scenario.model_tensors Scenario.pods_m1 ∅ Scenario.world0 =
  (Ok Scenario.tracked,
   mkWorld (mkFS Scenario.cached Scenario.cached) 2 [Sleep COLLECT_PERIOD; Listdir]).
Proof. vm_compute. reflexivity. Qed.

(** The collector from its start: the first turn stamps [c] and [d] at
    time 0, the turn at thirty seconds leaves them, the turn at sixty-five
    seconds evicts both. *)
Example scenario_from_start :
  node_collector
    (Scenario.surroundings
       (fun n => match n with
                 | 0%nat | 1%nat => 0
                 | 2%nat | 3%nat => 30 * Scenario.second
                 | _ => 65 * Scenario.second
                 end) [])
    Scenario.node Scenario.models Scenario.manifest
    [mkRound Scenario.pods_m1 id; mkRound Scenario.pods_m1 id;
     mkRound Scenario.pods_m1 id] Scenario.world0 =
  (Ok Scenario.tracked,
   mkWorld (mkFS {["a"; "b"]} Scenario.cached) 6
     ([Sleep COLLECT_PERIOD; Listdir; Sleep COLLECT_PERIOD; Listdir;
       Sleep COLLECT_PERIOD; Listdir]
        ++ critical_section "c" ++ critical_section "d")).
Proof. vm_compute. reflexivity. Qed.

(** Thirty seconds later nothing is expired; sixty-five seconds later [c]
    and [d] are, and their cache files are removed under their locks. *)
Example scenario_half_minute :
  reconcile (Scenario.surroundings (fun _ => 30 * Scenario.second) [])
    Scenario.node Scenario.models Scenario.model_tensors Scenario.pods_m1
    Scenario.tracked Scenario.world0 =
  (Ok (∅, Scenario.tracked),
   mkWorld (mkFS Scenario.cached Scenario.cached) 2 [Sleep COLLECT_PERIOD; Listdir]).
Proof. vm_compute. reflexivity. Qed.

Example scenario_past_grace :
  reconcile (Scenario.surroundings (fun _ => 65 * Scenario.second) [])
    Scenario.node Scenario.models Scenario.model_tensors Scenario.pods_m1
    Scenario.tracked Scenario.world0 =
  (Ok ({["c"; "d"]}, Scenario.tracked),
   mkWorld (mkFS Scenario.cached Scenario.cached) 2 [Sleep COLLECT_PERIOD; Listdir]) /\
  cycle (Scenario.surroundings (fun _ => 65 * Scenario.second) [])
    Scenario.node Scenario.models Scenario.model_tensors Scenario.pods_m1
    Scenario.tracked Scenario.world0 =
  (Ok Scenario.tracked,
   mkWorld (mkFS {["a"; "b"]} Scenario.cached) 2
     ([Sleep COLLECT_PERIOD; Listdir] ++ critical_section "c" ++ critical_section "d")).
Proof. split; vm_compute; reflexivity. Qed.

(** [m2] starts at thirty seconds, so [c] is live again; it stops before
    the turn at sixty-five seconds. The entry of [c] was kept through the
    live turn, and [c] is removed at once in the second turn, no fresh
    grace period having started. *)
Example scenario_live_again_then_stale :
  node_collector_loop
    (Scenario.surroundings
       (fun n => match n with O => 30 * Scenario.second | _ => 65 * Scenario.second end) [])
    Scenario.node Scenario.models Scenario.model_tensors
    [mkRound Scenario.pods_m1_m2 id; mkRound Scenario.pods_m1 id]
    Scenario.tracked Scenario.world0 =
  (Ok Scenario.tracked,
   mkWorld (mkFS {["a"; "b"]} Scenario.cached) 3
     ([Sleep COLLECT_PERIOD; Listdir; Sleep COLLECT_PERIOD; Listdir]
        ++ critical_section "c" ++ critical_section "d")).
Proof. vm_compute. reflexivity. Qed.

(** With the lock artifact of [d] missing, two turns past the grace
    period evict [c] and leave [d] cached and tracked. *)
Example scenario_missing_lock :
  node_collector_loop (Scenario.surroundings (fun _ => 65 * Scenario.second) [])
    Scenario.node Scenario.models Scenario.model_tensors
    [mkRound Scenario.pods_m1 id; mkRound Scenario.pods_m1 id]
    Scenario.tracked Scenario.world_no_lock_d =
  (Ok Scenario.tracked,
   mkWorld (mkFS {["a"; "b"; "d"]} {["a"; "b"; "c"]}) 3
     ([Sleep COLLECT_PERIOD; Listdir] ++ critical_section "c"
        ++ [Sleep COLLECT_PERIOD; Listdir])).
Proof. vm_compute. reflexivity. Qed.

(** * The claims *)

(** ** Bookkeeping of the registry: C1, C3, C4, C10 *)

(** C1 (the claim as stated fails). With [c] tracked, cached and live
    again, the turn hands the registry back with the entry of [c] still
    in it. *)
Lemma live_again_entry_not_removed :
  ~ (forall (env : Env) (node_name : string) (models : list string)
       (model_tensors : gmap string (gset string)) (pod_list : list Pod)
       (keep_alive_dict keep_alive_dict' : gmap string Z) (w w' : World)
       (live : gset string) (t : string),
       running_tensors_of model_tensors
         (running_models_of models (running_pods_of node_name pod_list)) = Ok live ->
       cycle env node_name models model_tensors pod_list keep_alive_dict w =
         (Ok keep_alive_dict', w') ->
       is_Some (keep_alive_dict !! t) ->
       t ∈ memory_files (fs w) -> t ∈ live ->
       keep_alive_dict' !! t = None).
Proof.
  intros H.
  enough (Scenario.tracked !! "c" = None) as Hc by (vm_compute in Hc; discriminate Hc).
  apply (H (Scenario.surroundings (fun _ => 30 * Scenario.second) [])
           Scenario.node Scenario.models Scenario.model_tensors Scenario.pods_m1_m2
           Scenario.tracked Scenario.tracked Scenario.world0
           (mkWorld (mkFS Scenario.cached Scenario.cached) 1 [Sleep COLLECT_PERIOD; Listdir])
           {["a"; "b"; "c"]} "c").
  - vm_compute. reflexivity.
  - vm_compute. reflexivity.
  - exists 0. vm_compute. reflexivity.
  - compute_done.
  - compute_done.
Qed.

(** C1 (as amended). In every turn, a tensor tracked in the registry that
    is cached and live again keeps its entry, with the time stamp it had,
    and stays cached: nothing is removed. A later absence of demand is therefore measured
    from that old stamp: the entry is still the old one after the later
    call, and the tensor is expired in it exactly when the old stamp plus
    the grace period has passed at the reading of its turn. *)
Theorem live_again_keeps_stamp (env : Env) (node_name : string)
    (models : list string) (model_tensors : gmap string (gset string))
    (pod_list : list Pod) (keep_alive_dict keep_alive_dict' : gmap string Z)
    (w w' : World) (live : gset string) (t : string) (since : Z) :
  running_tensors_of model_tensors
    (running_models_of models (running_pods_of node_name pod_list)) = Ok live ->
  cycle env node_name models model_tensors pod_list keep_alive_dict w =
    (Ok keep_alive_dict', w') ->
  keep_alive_dict !! t = Some since ->
  t ∈ memory_files (fs w) -> t ∈ live ->
  keep_alive_dict' !! t = Some since /\
  t ∈ memory_files (fs w') /\
  forall (stale expired : gset string) (later : gmap string Z) (w2 w3 : World),
    t ∈ stale ->
    get_expired_tensor env stale keep_alive_dict' w2 = (Ok (expired, later), w3) ->
    later !! t = Some since /\
    exists i, set_iter env stale !! i = Some t /\
              (t ∈ expired <-> since + GRACE <= now_at env (ticks w2 + i)).
Proof.
  intros Hlive Hcycle Hsince Hcached Hl.
  destruct (cycle_removes_stale _ _ _ _ _ _ _ _ _ _ Hlive Hcycle) as (_ & _ & _ & Hkept).
  destruct (cycle_ok_inv _ _ _ _ _ _ _ _ _ _ Hlive Hcycle) as (exp & w3 & _ & Hget & _).
  expired_facts Hget Hd He. specialize (Hd t). rewrite Hsince in Hd.
  split; [done|]. split; [by apply Hkept|]. intros stale expired later w2 w4 Hstale Hget2.
  expired_facts Hget2 Hd2 He2. specialize (Hd2 t). rewrite Hd in Hd2.
  split; [done|].
  apply (elem_of_set_iter env) in Hstale.
  destruct (list_elem_of_lookup_1 _ _ Hstale) as [i Hi].
  exists i. split; [done|]. rewrite He2. split.
  - intros (j & since' & Hj & Hs & Hle).
    assert (j = i) as -> by (eapply NoDup_lookup; eauto using set_iter_NoDup).
    congruence.
  - intros Hle. by exists i, since.
Qed.

Lemma live_again_keeps_stamp_witness :
  Scenario.tracked !! "c" = Some 0 /\
  "c" ∈ Scenario.cached /\
  forall (stale expired : gset string) (later : gmap string Z) (w2 w3 : World),
    "c" ∈ stale ->
    get_expired_tensor (Scenario.surroundings (fun _ => 30 * Scenario.second) [])
      stale Scenario.tracked w2 = (Ok (expired, later), w3) ->
    later !! "c" = Some 0 /\
    exists i, elements stale !! i = Some "c" /\
              ("c" ∈ expired <-> 0 + GRACE <= 30 * Scenario.second).
Proof.
  apply (live_again_keeps_stamp
           (Scenario.surroundings (fun _ => 30 * Scenario.second) [])
           Scenario.node Scenario.models Scenario.model_tensors Scenario.pods_m1_m2
           Scenario.tracked Scenario.tracked Scenario.world0
           (mkWorld (mkFS Scenario.cached Scenario.cached) 1 [Sleep COLLECT_PERIOD; Listdir])
           {["a"; "b"; "c"]} "c" 0).
  - vm_compute. reflexivity.
  - vm_compute. reflexivity.
  - vm_compute. reflexivity.
  - compute_done.
  - compute_done.
Defined.

(** C3. Grace-period lower bound. In a call of [get_expired_tensor], a
    stale tensor without an entry is not expired by that call: it only
    gets its entry, stamped with a reading of the clock taken during the
    call. A tensor is expired only if it had an entry before the call and
    a reading of the clock during the call is at least one grace period
    (one minute) after the stamp. Hence a turn removes the cache file of a
    tensor only under the same condition. *)
Theorem grace_period_lower_bound (env : Env) :
  (forall (stale expired : gset string) (keep_alive_dict keep_alive_dict' : gmap string Z)
          (w w' : World),
     get_expired_tensor env stale keep_alive_dict w =
       (Ok (expired, keep_alive_dict'), w') ->
     (forall t, t ∈ stale -> keep_alive_dict !! t = None ->
        t ∉ expired /\
        exists n, (ticks w <= n < ticks w')%nat /\
                  keep_alive_dict' !! t = Some (now_at env n)) /\
     (forall t, t ∈ expired ->
        exists since n,
          keep_alive_dict !! t = Some since /\
          (ticks w <= n < ticks w')%nat /\
          now_at env n - since >= GRACE)) /\
  (forall (node_name : string) (models : list string)
          (model_tensors : gmap string (gset string)) (pod_list : list Pod)
          (keep_alive_dict : gmap string Z) (w w' : World)
          (r : outcome (gmap string Z)),
     cycle env node_name models model_tensors pod_list keep_alive_dict w = (r, w') ->
     exists evs,
       trace w' = (trace w ++ evs)%list /\
       forall t, Remove t ∈ evs ->
         exists since n,
           keep_alive_dict !! t = Some since /\
           (ticks w <= n < ticks w')%nat /\
           now_at env n - since >= GRACE) /\
  GRACE = 60 * 1000000.
Proof.
  assert (forall (stale expired : gset string) (d d' : gmap string Z) (w w' : World),
            get_expired_tensor env stale d w = (Ok (expired, d'), w') ->
            forall t, t ∈ expired ->
              exists since n, d !! t = Some since /\
                (ticks w <= n < ticks w')%nat /\ now_at env n - since >= GRACE) as Hold.
  { intros stale expired d d' w w' Hget t Ht. expired_facts Hget Hd He.
    apply He in Ht as (i & since & Hi & Hs & Hle).
    apply position_in_iter in Hi as [_ Hi].
    exists since, (ticks w + i)%nat. split; [done|]. simpl. split; lia. }
  split; [|split; [|reflexivity]].
  - intros stale expired d d' w w' Hget. split; [|by eapply Hold].
    intros t Hst Hnone. split.
    + intros Ht. destruct (Hold _ _ _ _ _ _ Hget t Ht) as (since & _ & Hs & _). congruence.
    + expired_facts Hget Hd He. specialize (Hd t). rewrite Hnone in Hd.
      destruct Hd as [[Hno _]|(i & Hi & Hv)]; [done|].
      apply position_in_iter in Hi as [_ Hi].
      exists (ticks w + i)%nat. split; [simpl; lia|done].
  - intros node_name models model_tensors pod_list d w w' r Hcycle.
    destruct (cycle_runs _ _ _ _ _ _ _ _ _ Hcycle) as (evs & Htr & _ & _ & Hrm).
    exists evs. split; [done|]. intros t Ht.
    destruct (Hrm t Ht) as (live & expired & d' & w3 & _ & _ & Hget & Htk & Hexp & _).
    destruct (Hold _ _ _ _ _ _ Hget t Hexp) as (since & n & Hs & Hn & Hle).
    exists since, n. split; [done|]. split; [|done]. simpl in Hn. lia.
Qed.

Lemma grace_period_lower_bound_witness :
  (forall t, t ∈ ({["c"; "d"]} : gset string) -> Scenario.tracked !! t = None ->
     (t ∉ ({["c"; "d"]} : gset string)) /\
     exists n, (0 <= n < 2)%nat /\ Scenario.tracked !! t = Some (65 * Scenario.second)) /\
  (forall t, t ∈ ({["c"; "d"]} : gset string) ->
     exists since n,
       Scenario.tracked !! t = Some since /\
       (0 <= n < 2)%nat /\ 65 * Scenario.second - since >= GRACE).
Proof.
  apply (proj1 (grace_period_lower_bound
                  (Scenario.surroundings (fun _ => 65 * Scenario.second) []))
           {["c"; "d"]} {["c"; "d"]} Scenario.tracked Scenario.tracked
           Scenario.world0 (tick_by 2 Scenario.world0)).
  vm_compute. reflexivity.
Defined.

(** C4 (the claim as stated fails, in both halves). After one minute, the
    turn removes the cache files of [c] and [d] and hands the registry
    back with both entries in it; and an entry for a name that is not in
    the cache at all is handed back as well. *)
Lemma evicted_and_vanished_entries_stay :
  ~ (forall (env : Env) (node_name : string) (models : list string)
       (model_tensors : gmap string (gset string)) (pod_list : list Pod)
       (keep_alive_dict keep_alive_dict' : gmap string Z) (w w' : World) (t : string),
       cycle env node_name models model_tensors pod_list keep_alive_dict w =
         (Ok keep_alive_dict', w') ->
       t ∈ memory_files (fs w) -> t ∉ memory_files (fs w') ->
       keep_alive_dict' !! t = None) /\
  ~ (forall (env : Env) (node_name : string) (models : list string)
       (model_tensors : gmap string (gset string)) (pod_list : list Pod)
       (keep_alive_dict keep_alive_dict' : gmap string Z) (w w' : World) (t : string),
       cycle env node_name models model_tensors pod_list keep_alive_dict w =
         (Ok keep_alive_dict', w') ->
       t ∉ memory_files (fs w) ->
       keep_alive_dict' !! t = None).
Proof.
  split; intros H.
  - enough (Scenario.tracked !! "c" = None) as Hc by (vm_compute in Hc; discriminate Hc).
    apply (H (Scenario.surroundings (fun _ => 65 * Scenario.second) [])
             Scenario.node Scenario.models Scenario.model_tensors Scenario.pods_m1
             Scenario.tracked Scenario.tracked Scenario.world0
             (mkWorld (mkFS {["a"; "b"]} Scenario.cached) 2
                ([Sleep COLLECT_PERIOD; Listdir] ++ critical_section "c"
                   ++ critical_section "d")) "c").
    + vm_compute. reflexivity.
    + compute_done.
    + compute_done.
  - enough (({["z" := 0]} : gmap string Z) !! "z" = None) as Hz
      by (vm_compute in Hz; discriminate Hz).
    apply (H (Scenario.surroundings (fun _ => 65 * Scenario.second) [])
             Scenario.node Scenario.models Scenario.model_tensors Scenario.pods_m1_m2
             {["z" := 0]} {["z" := 0]}
             (mkWorld (mkFS {["a"; "b"; "c"]} Scenario.cached) 0 [])
             (mkWorld (mkFS {["a"; "b"; "c"]} Scenario.cached) 0
                [Sleep COLLECT_PERIOD; Listdir]) "z").
    + vm_compute. reflexivity.
    + compute_done.
Qed.

(** C4 (as amended). A turn that hands the registry back leaves in it,
    with the time stamp it had, the entry of every tensor whose cache file
    the turn deleted (it had one), and leaves the entries of the names
    that are not in the cache as they were: nothing is removed or
    pruned. *)
Theorem entries_outlive_eviction (env : Env) (node_name : string)
    (models : list string) (model_tensors : gmap string (gset string))
    (pod_list : list Pod) (keep_alive_dict keep_alive_dict' : gmap string Z)
    (w w' : World) :
  cycle env node_name models model_tensors pod_list keep_alive_dict w =
    (Ok keep_alive_dict', w') ->
  (forall t, t ∈ memory_files (fs w) -> t ∉ memory_files (fs w') ->
     exists since, keep_alive_dict !! t = Some since /\
                   keep_alive_dict' !! t = Some since) /\
  (forall t, t ∉ memory_files (fs w) -> keep_alive_dict' !! t = keep_alive_dict !! t).
Proof.
  intros Hcycle.
  destruct (cycle_early_or_late env node_name models model_tensors pod_list
              keep_alive_dict w) as [[e He]|(live & Hlive & Hlist)];
    [rewrite He in Hcycle; discriminate Hcycle|].
  destruct (cycle_runs _ _ _ _ _ _ _ _ _ Hcycle) as (evs & _ & _ & Hmem & Hrm).
  destruct (cycle_ok_inv _ _ _ _ _ _ _ _ _ _ Hlive Hcycle) as (exp & w3 & _ & Hget & _).
  split.
  - intros t Hin Hout.
    assert (Remove t ∈ evs) as Ht.
    { destruct (decide (Remove t ∈ evs)) as [?|Hn]; [done|].
      exfalso. apply Hout, Hmem. by split. }
    destruct (Hrm t Ht) as (live' & exp' & d' & w3' & Hlive' & _ & Hget' & _ & Hexp & _).
    rewrite Hlive in Hlive'. injection Hlive' as <-.
    rewrite Hget in Hget'. simplify_eq Hget'; intros; subst.
    expired_facts Hget Hd He.
    apply He in Hexp as (i & since & _ & Hs & _). exists since. split; [done|].
    specialize (Hd t). by rewrite Hs in Hd.
  - intros t Hout. expired_facts Hget Hd He. specialize (Hd t).
    destruct (keep_alive_dict !! t) as [since|]; [done|].
    destruct Hd as [[_ ->]|(i & Hi & _)]; [done|].
    apply position_in_iter in Hi as [Hi _]. set_solver.
Qed.

Lemma entries_outlive_eviction_witness :
  (forall t, t ∈ Scenario.cached -> t ∉ ({["a"; "b"]} : gset string) ->
     exists since, Scenario.tracked !! t = Some since /\
                   Scenario.tracked !! t = Some since) /\
  (forall t, t ∉ Scenario.cached -> Scenario.tracked !! t = Scenario.tracked !! t).
Proof.
  refine (entries_outlive_eviction
            (Scenario.surroundings (fun _ => 65 * Scenario.second) [])
            Scenario.node Scenario.models Scenario.model_tensors Scenario.pods_m1
            Scenario.tracked Scenario.tracked Scenario.world0
            (mkWorld (mkFS {["a"; "b"]} Scenario.cached) 2
               ([Sleep COLLECT_PERIOD; Listdir] ++ critical_section "c"
                  ++ critical_section "d")) _).
  vm_compute. reflexivity.
Defined.

(** C10. The registry is insert-only. A call of [get_expired_tensor]
    returns and leaves every entry of the dict as it was; an entry that it
    adds is the entry of a stale tensor that had none, stamped with a
    reading of the clock taken during the call ([delete_tensors] is not
    given the dict at all). So a turn hands back a registry that extends
    the one it was given, and so does any number of turns of the loop:
    once recorded, a time stamp stays, whatever becomes of the tensor. *)
Theorem registry_insert_only (env : Env) :
  (forall (stale : gset string) (keep_alive_dict : gmap string Z) (w : World),
     exists expired keep_alive_dict' w',
       get_expired_tensor env stale keep_alive_dict w =
         (Ok (expired, keep_alive_dict'), w') /\
       forall t,
         match keep_alive_dict !! t with
         | Some since => keep_alive_dict' !! t = Some since
         | None =>
             keep_alive_dict' !! t = None \/
             (t ∈ stale /\
              exists n, (ticks w <= n < ticks w')%nat /\
                        keep_alive_dict' !! t = Some (now_at env n))
         end) /\
  (forall (node_name : string) (models : list string)
          (model_tensors : gmap string (gset string)) (pod_list : list Pod)
          (keep_alive_dict keep_alive_dict' : gmap string Z) (w w' : World),
     cycle env node_name models model_tensors pod_list keep_alive_dict w =
       (Ok keep_alive_dict', w') ->
     keep_alive_dict ⊆ keep_alive_dict') /\
  (forall (node_name : string) (models : list string)
          (model_tensors : gmap string (gset string)) (rounds : list Round)
          (keep_alive_dict keep_alive_dict' : gmap string Z) (w w' : World),
     node_collector_loop env node_name models model_tensors rounds keep_alive_dict w =
       (Ok keep_alive_dict', w') ->
     keep_alive_dict ⊆ keep_alive_dict').
Proof.
  split; [|split].
  - intros stale d w.
    destruct (get_expired_tensor_spec env stale d w) as (exp & d' & Hrun & Hd & _).
    exists exp, d', (tick_by (size stale) w). split; [done|].
    intros t. specialize (Hd t). destruct (d !! t) as [since|]; [done|].
    destruct Hd as [[_ ?]|(i & Hi & Hv)]; [by left|right].
    apply position_in_iter in Hi as [? Hi]. split; [done|].
    exists (ticks w + i)%nat. split; [simpl; lia|done].
  - intros node_name models model_tensors pod_list d d' w w' Hcycle.
    apply map_subseteq_spec. intros t since Hs.
    apply (node_collector_loop_keeps env node_name models model_tensors
             [mkRound pod_list id] d d' w w'); [|done].
    cbn [node_collector_loop]. unfold bind at 1, others_act. unfold bind at 1.
    simpl. destruct w as [f n tr]. simpl. rewrite Hcycle. reflexivity.
  - intros node_name models model_tensors rounds d d' w w' Hloop.
    apply map_subseteq_spec. intros t since Hs.
    by eapply node_collector_loop_keeps.
Qed.

Lemma registry_insert_only_witness :
  Scenario.tracked ⊆ ({["c" := 0; "d" := 0; "z" := 65 * Scenario.second]} : gmap string Z).
Proof.
  refine (proj2 (proj2 (registry_insert_only
                          (Scenario.surroundings (fun _ => 65 * Scenario.second) [])))
            Scenario.node Scenario.models Scenario.model_tensors
            [mkRound Scenario.pods_m1 id;
             mkRound Scenario.pods_m1_m2
               (fun d => mkFS ({["z"]} ∪ memory_files d) (lock_files d))]
            Scenario.tracked _ Scenario.world0
            (mkWorld (mkFS {["a"; "b"; "z"]} Scenario.cached) 3
               ([Sleep COLLECT_PERIOD; Listdir] ++ critical_section "c"
                  ++ critical_section "d" ++ [Sleep COLLECT_PERIOD; Listdir])) _).
  vm_compute. reflexivity.
Defined.

(** ** What is handed to the evictor: C2, C9 *)
(** C2. No premature eviction: in every turn whose live set is [live], no
    tensor of [live] is in the set handed to [delete_tensors], which lies
    within the cached tensors that are not live; and whatever the outcome
    of the turn, a removal of a cache file is the removal of a cached
    tensor that is not live, so every cached live tensor is still cached
    after the turn. *)
Theorem no_premature_eviction (env : Env) (node_name : string)
    (models : list string) (model_tensors : gmap string (gset string))
    (pod_list : list Pod) (keep_alive_dict : gmap string Z) (w : World)
    (live : gset string) :
  running_tensors_of model_tensors
    (running_models_of models (running_pods_of node_name pod_list)) = Ok live ->
  (forall expired keep_alive_dict' w1,
     reconcile env node_name models model_tensors pod_list keep_alive_dict w =
       (Ok (expired, keep_alive_dict'), w1) ->
     (forall t, t ∈ live -> t ∉ expired) /\
     expired ⊆ memory_files (fs w) ∖ live) /\
  (forall r w',
     cycle env node_name models model_tensors pod_list keep_alive_dict w = (r, w') ->
     exists evs,
       trace w' = (trace w ++ evs)%list /\
       (forall t, Remove t ∈ evs -> t ∈ memory_files (fs w) ∖ live) /\
       (forall t, t ∈ live -> t ∈ memory_files (fs w) -> t ∈ memory_files (fs w'))).
Proof.
  intros Hlive. split.
  - intros expired kad' w1 Hrec. rewrite reconcile_cases, Hlive in Hrec.
    destruct (fails env Listdir); [discriminate|].
    apply expired_subset in Hrec. set_solver.
  - intros r w' Hcycle. by eapply cycle_removes_stale.
Qed.

Lemma no_premature_eviction_witness :
  (forall expired keep_alive_dict' w1,
     reconcile (Scenario.surroundings (fun _ => 65 * Scenario.second) [])
       Scenario.node Scenario.models Scenario.model_tensors Scenario.pods_m1
       Scenario.tracked Scenario.world0 = (Ok (expired, keep_alive_dict'), w1) ->
     (forall t, t ∈ ({["a"; "b"]} : gset string) -> t ∉ expired) /\
     expired ⊆ memory_files (fs Scenario.world0) ∖ {["a"; "b"]}) /\
  (forall r w',
     cycle (Scenario.surroundings (fun _ => 65 * Scenario.second) [])
       Scenario.node Scenario.models Scenario.model_tensors Scenario.pods_m1
       Scenario.tracked Scenario.world0 = (r, w') ->
     exists evs,
       trace w' = (trace Scenario.world0 ++ evs)%list /\
       (forall t, Remove t ∈ evs -> t ∈ memory_files (fs Scenario.world0) ∖ {["a"; "b"]}) /\
       (forall t, t ∈ ({["a"; "b"]} : gset string) ->
                  t ∈ memory_files (fs Scenario.world0) -> t ∈ memory_files (fs w'))).
Proof.
  apply (no_premature_eviction
           (Scenario.surroundings (fun _ => 65 * Scenario.second) [])
           Scenario.node Scenario.models Scenario.model_tensors Scenario.pods_m1
           Scenario.tracked Scenario.world0 {["a"; "b"]}).
  vm_compute. reflexivity.
Defined.

(** C9. Live-set computation. For every model and every list of
    workloads, the model is running exactly if its name is a substring of
    some workload. For every catalogue of models, the union loop returns
    a live set, and a tensor is in it exactly if it is a tensor of some
    running model. On the node of the scenario, with workload
    [pod-m1-xyz] alone, the live set is [{a, b}], the stale set the cache
    [{a, b, c, d}] leaves is [{c, d}], and the first turn from an empty
    registry expires nothing and stamps exactly [c] and [d]. *)
Theorem live_set_computation :
  (forall (model : string) (workloads : list string),
     is_running model workloads = true <->
     exists wl, wl ∈ workloads /\ PyStr.substring_of model wl) /\
  (forall (manifest : string -> gset string) (models : list string)
          (node_name : string) (pod_list : list Pod),
     exists live,
       running_tensors_of (get_tensors manifest models)
         (running_models_of models (running_pods_of node_name pod_list)) = Ok live /\
       forall t, t ∈ live <->
         exists model, model ∈ models /\
                       is_running model (running_pods_of node_name pod_list) = true /\
                       t ∈ manifest model) /\
  (Scenario.model_tensors = {["m1" := {["a"; "b"]}; "m2" := {["b"; "c"]}]} /\
   running_pods_of Scenario.node Scenario.pods_m1 = ["pod-m1-xyz"] /\
   running_tensors_of Scenario.model_tensors
     (running_models_of Scenario.models ["pod-m1-xyz"]) = Ok {["a"; "b"]} /\
   memory_files (fs Scenario.world0) ∖ {["a"; "b"]} = {["c"; "d"]} /\
   forall clock : nat -> Z,
     reconcile (Scenario.surroundings clock []) Scenario.node Scenario.models
       Scenario.model_tensors Scenario.pods_m1 ∅ Scenario.world0 =
     (Ok (∅, {["c" := clock 0%nat; "d" := clock 1%nat]}),
      mkWorld (mkFS Scenario.cached Scenario.cached) 2 [Sleep COLLECT_PERIOD; Listdir])).
Proof.
  split; [exact is_running_spec|]. split.
  - intros manifest models node_name pod_list.
    set (pods := running_pods_of node_name pod_list).
    destruct (running_tensors_of_spec (get_tensors manifest models)
                (running_models_of models pods)) as (live & Hrun & Hlive).
    { intros m Hm. apply elem_of_running_models in Hm as [Hm _].
      rewrite get_tensors_lookup, decide_True by done. by eexists. }
    exists live. split; [done|]. intros t. rewrite Hlive. split.
    + intros (m & ts & Hm & Hl & Ht).
      apply elem_of_running_models in Hm as [Hm Hr].
      rewrite get_tensors_lookup, decide_True in Hl by done.
      injection Hl as <-. by exists m.
    + intros (m & Hm & Hr & Ht). exists m, (manifest m).
      split; [by apply elem_of_running_models|].
      split; [|done]. by rewrite get_tensors_lookup, decide_True.
  - split; [vm_compute; reflexivity|]. split; [vm_compute; reflexivity|].
    split; [vm_compute; reflexivity|]. split; [vm_compute; reflexivity|].
    intros clock. vm_compute. reflexivity.
Qed.

Lemma live_set_computation_witness :
  is_running "m1" ["pod-m2-abc"; "pod-m1-xyz"] = true <->
  exists wl, wl ∈ ["pod-m2-abc"; "pod-m1-xyz"] /\ PyStr.substring_of "m1" wl.
Proof.
  exact (proj1 live_set_computation "m1" ["pod-m2-abc"; "pod-m1-xyz"]).
Defined.

(** ** The evictor: C5, C6, C7, C8 *)

(** The first part of a turn that yields its pair got through the live
    set and the listing: it is the call of [get_expired_tensor] on the
    cached tensors that are not live, after the sleep and the listing. *)
Lemma reconcile_ok_inv (env : Env) (node_name : string) (models : list string)
    (model_tensors : gmap string (gset string)) (pod_list : list Pod)
    (keep_alive_dict keep_alive_dict' : gmap string Z) (expired : gset string)
    (w w1 : World) :
  reconcile env node_name models model_tensors pod_list keep_alive_dict w =
    (Ok (expired, keep_alive_dict'), w1) ->
  exists live,
    running_tensors_of model_tensors
      (running_models_of models (running_pods_of node_name pod_list)) = Ok live /\
    get_expired_tensor env (memory_files (fs w) ∖ live) keep_alive_dict
      (after_calls (memory_files (fs w)) [Sleep COLLECT_PERIOD; Listdir] w) =
      (Ok (expired, keep_alive_dict'), w1) /\
    w1 = tick_by (size (memory_files (fs w) ∖ live))
           (after_calls (memory_files (fs w)) [Sleep COLLECT_PERIOD; Listdir] w).
Proof.
  rewrite reconcile_cases.
  destruct (running_tensors_of _ _) as [live|e]; [|discriminate].
  destruct (fails env Listdir); [discriminate|].
  intros Hget. exists live. split; [done|]. split; [done|].
  expired_facts Hget Hd He. reflexivity.
Qed.

(** C5 (the claim as stated fails, in its last part). The clock reads
    sixty-five seconds twice and thirty seconds afterwards. The first turn
    hands [c] and [d] to [delete_tensors]; [d] has no lock artifact and is
    left alone. In the next turn, with nothing changed on the node, [d] is
    still cached and not live, and is not handed to [delete_tensors]. *)
Lemma backward_clock_stops_the_retry :
  ~ (forall (env : Env) (node_name : string) (models : list string)
       (model_tensors : gmap string (gset string)) (pod_list : list Pod)
       (keep_alive_dict keep_alive_dict' keep_alive_dict2 : gmap string Z)
       (expired expired2 : gset string) (w w1 w' w3 : World) (t : string),
       reconcile env node_name models model_tensors pod_list keep_alive_dict w =
         (Ok (expired, keep_alive_dict'), w1) ->
       cycle env node_name models model_tensors pod_list keep_alive_dict w =
         (Ok keep_alive_dict', w') ->
       t ∈ expired ->
       t ∉ lock_files (fs w) ->
       reconcile env node_name models model_tensors pod_list keep_alive_dict' w' =
         (Ok (expired2, keep_alive_dict2), w3) ->
       t ∈ expired2).
Proof.
  intros H.
  enough ("d" ∈ (∅ : gset string)) as Hd by (revert Hd; compute_done).
  apply (H (Scenario.surroundings
              (fun n => match n with
                        | 0%nat | 1%nat => 65 * Scenario.second
                        | _ => 30 * Scenario.second
                        end) [])
           Scenario.node Scenario.models Scenario.model_tensors Scenario.pods_m1
           Scenario.tracked Scenario.tracked Scenario.tracked
           {["c"; "d"]} ∅
           Scenario.world_no_lock_d
           (mkWorld (mkFS Scenario.cached {["a"; "b"; "c"]}) 2
              [Sleep COLLECT_PERIOD; Listdir])
           (mkWorld (mkFS {["a"; "b"; "d"]} {["a"; "b"; "c"]}) 2
              ([Sleep COLLECT_PERIOD; Listdir] ++ critical_section "c"))
           (mkWorld (mkFS {["a"; "b"; "d"]} {["a"; "b"; "c"]}) 3
              ([Sleep COLLECT_PERIOD; Listdir] ++ critical_section "c"
                 ++ [Sleep COLLECT_PERIOD; Listdir]))
           "d").
  - vm_compute. reflexivity.
  - vm_compute. reflexivity.
  - compute_done.
  - compute_done.
  - vm_compute. reflexivity.
Qed.

(** C5 (as amended). Fail-safe deletion. Take a turn whose first part
    yields the set [expired], and a tensor [t] of that set that has no
    lock artifact. The turn is that first part followed by
    [delete_tensors] on [expired]. Whatever the time since its stamp, none
    of the calls of an eviction is made on [t] in the turn, and [t], which
    was cached, is cached after it; [t] has its entry, with the stamp it
    had, in the registry that the turn hands on. And provided the clock
    does not run backwards, any later turn that starts from that registry,
    finds [t] cached and not live and gets to its second part hands [t] to
    [delete_tensors] again. *)
Theorem fail_safe_deletion (env : Env) (node_name : string)
    (models : list string) (model_tensors : gmap string (gset string))
    (pod_list : list Pod) (keep_alive_dict keep_alive_dict' : gmap string Z)
    (expired : gset string) (w w1 w' : World) (r : outcome (gmap string Z))
    (t : string) :
  reconcile env node_name models model_tensors pod_list keep_alive_dict w =
    (Ok (expired, keep_alive_dict'), w1) ->
  cycle env node_name models model_tensors pod_list keep_alive_dict w = (r, w') ->
  t ∈ expired ->
  t ∉ lock_files (fs w) ->
  (exists r0,
     delete_tensors env expired w1 = (r0, w') /\
     r = match r0 with Ok _ => Ok keep_alive_dict' | Raise e => Raise e end) /\
  (exists evs,
     trace w' = (trace w ++ [Sleep COLLECT_PERIOD; Listdir] ++ evs)%list /\
     forall c, c ∈ critical_section t -> c ∉ evs) /\
  (t ∈ memory_files (fs w) /\ t ∈ memory_files (fs w')) /\
  (exists since, keep_alive_dict !! t = Some since /\
                 keep_alive_dict' !! t = Some since) /\
  (monotone_clock env ->
   forall (pod_list2 : list Pod) (live2 expired2 : gset string)
          (keep_alive_dict2 : gmap string Z) (w2 w3 w4 : World)
          (r2 : outcome (gmap string Z)),
     (ticks w' <= ticks w2)%nat ->
     running_tensors_of model_tensors
       (running_models_of models (running_pods_of node_name pod_list2)) = Ok live2 ->
     t ∈ memory_files (fs w2) -> t ∉ live2 ->
     reconcile env node_name models model_tensors pod_list2 keep_alive_dict' w2 =
       (Ok (expired2, keep_alive_dict2), w3) ->
     cycle env node_name models model_tensors pod_list2 keep_alive_dict' w2 =
       (r2, w4) ->
     t ∈ expired2 /\
     exists r0, delete_tensors env expired2 w3 = (r0, w4)).
Proof.
  assert (forall pods d d' exp (u u1 u' : World) (res : outcome (gmap string Z)),
            reconcile env node_name models model_tensors pods d u = (Ok (exp, d'), u1) ->
            cycle env node_name models model_tensors pods d u = (res, u') ->
            exists r0, delete_tensors env exp u1 = (r0, u') /\
                       res = match r0 with Ok _ => Ok d' | Raise e => Raise e end)
    as Hturn.
  { intros pods d d' exp u u1 u' res Hrec Hcycle.
    rewrite cycle_cases, Hrec in Hcycle. simpl in Hcycle.
    destruct (delete_tensors env exp u1) as [[[]|e] u2];
      simplify_eq Hcycle; intros; subst; by eexists. }
  intros Hrec Hcycle Hexp Hnolock.
  destruct (Hturn _ _ _ _ _ _ _ _ Hrec Hcycle) as (r0 & Hdel & Hr).
  destruct (reconcile_ok_inv _ _ _ _ _ _ _ _ _ _ Hrec) as (live & Hlive & Hget & Hw1).
  assert (t ∉ lock_files (fs w1)) as Hnolock1 by (by rewrite Hw1).
  destruct (delete_tensors_skips _ _ _ _ _ t Hdel (or_introl Hnolock1))
    as (evs & Htr & Hnone & Hsame & _ & Htk).
  pose proof Hget as Hget'. expired_facts Hget' Hd He.
  apply He in Hexp as (i & since & Hi & Hs & Hle).
  apply position_in_iter in Hi as [Hstale Hi].
  specialize (Hd t). rewrite Hs in Hd.
  split; [by exists r0|]. split.
  { exists evs. split; [|done]. rewrite Htr. simpl. by rewrite <- app_assoc. }
  split.
  { assert (t ∈ memory_files (fs w)) as Hin by set_solver.
    split; [done|]. apply Hsame. by simpl. }
  split; [by exists since|].
  intros Hmono pod_list2 live2 expired2 d2 w2 w3 w4 r2 Hlater Hlive2 Hcached Hnl
    Hrec2 Hcycle2.
  destruct (Hturn _ _ _ _ _ _ _ _ Hrec2 Hcycle2) as (r0' & Hdel2 & _).
  split; [|by exists r0'].
  destruct (reconcile_ok_inv _ _ _ _ _ _ _ _ _ _ Hrec2) as (live' & Hlive' & Hget2 & _).
  rewrite Hlive2 in Hlive'. injection Hlive' as <-.
  expired_facts Hget2 Hd2 He2. apply He2.
  assert (t ∈ set_iter env (memory_files (fs w2) ∖ live2)) as Hin
    by (apply elem_of_set_iter; set_solver).
  destruct (list_elem_of_lookup_1 _ _ Hin) as [j Hj].
  exists j, since. split; [done|]. split; [done|].
  etrans; [exact Hle|]. apply Hmono. simpl in *. lia.
Qed.

Lemma fail_safe_deletion_witness :
  (exists r0,
     delete_tensors (Scenario.surroundings (fun _ => 65 * Scenario.second) [])
       {["c"; "d"]}
       (mkWorld (mkFS Scenario.cached {["a"; "b"; "c"]}) 2
          [Sleep COLLECT_PERIOD; Listdir]) =
       (r0, mkWorld (mkFS {["a"; "b"; "d"]} {["a"; "b"; "c"]}) 2
              ([Sleep COLLECT_PERIOD; Listdir] ++ critical_section "c")) /\
     Ok Scenario.tracked =
       match r0 with Ok _ => Ok Scenario.tracked | Raise e => Raise e end) /\
  (exists evs,
     ([Sleep COLLECT_PERIOD; Listdir] ++ critical_section "c")%list =
       ([] ++ [Sleep COLLECT_PERIOD; Listdir] ++ evs)%list /\
     forall c, c ∈ critical_section "d" -> c ∉ evs) /\
  ("d" ∈ Scenario.cached /\ "d" ∈ ({["a"; "b"; "d"]} : gset string)) /\
  (exists since, Scenario.tracked !! "d" = Some since /\
                 Scenario.tracked !! "d" = Some since) /\
  (monotone_clock (Scenario.surroundings (fun _ => 65 * Scenario.second) []) ->
   forall (pod_list2 : list Pod) (live2 expired2 : gset string)
          (keep_alive_dict2 : gmap string Z) (w2 w3 w4 : World)
          (r2 : outcome (gmap string Z)),
     (2 <= ticks w2)%nat ->
     running_tensors_of Scenario.model_tensors
       (running_models_of Scenario.models
          (running_pods_of Scenario.node pod_list2)) = Ok live2 ->
     "d" ∈ memory_files (fs w2) -> "d" ∉ live2 ->
     reconcile (Scenario.surroundings (fun _ => 65 * Scenario.second) [])
       Scenario.node Scenario.models Scenario.model_tensors pod_list2
       Scenario.tracked w2 = (Ok (expired2, keep_alive_dict2), w3) ->
     cycle (Scenario.surroundings (fun _ => 65 * Scenario.second) [])
       Scenario.node Scenario.models Scenario.model_tensors pod_list2
       Scenario.tracked w2 = (r2, w4) ->
     "d" ∈ expired2 /\
     exists r0,
       delete_tensors (Scenario.surroundings (fun _ => 65 * Scenario.second) [])
         expired2 w3 = (r0, w4)).
Proof.
  refine (fail_safe_deletion
            (Scenario.surroundings (fun _ => 65 * Scenario.second) [])
            Scenario.node Scenario.models Scenario.model_tensors Scenario.pods_m1
            Scenario.tracked Scenario.tracked {["c"; "d"]}
            Scenario.world_no_lock_d
            (mkWorld (mkFS Scenario.cached {["a"; "b"; "c"]}) 2
               [Sleep COLLECT_PERIOD; Listdir])
            (mkWorld (mkFS {["a"; "b"; "d"]} {["a"; "b"; "c"]}) 2
               ([Sleep COLLECT_PERIOD; Listdir] ++ critical_section "c"))
            (Ok Scenario.tracked) "d" _ _ _ _).
  - vm_compute. reflexivity.
  - vm_compute. reflexivity.
  - compute_done.
  - compute_done.
Defined.

(** C6. Idempotent re-eviction. Evicting a tensor whose cache file is
    absent succeeds and changes nothing: the turn of the loop for it, and
    [delete_tensors] on it alone, return normally and leave the world as
    it was (no call is made, no file is touched); and within any run of
    [delete_tensors] none of the calls of an eviction is made on it. *)
Theorem evicting_absent_file_is_noop (env : Env) (t : string) (w : World) :
  t ∉ memory_files (fs w) ->
  delete_step env t tt w = (Ok tt, w) /\
  delete_tensors env {[t]} w = (Ok tt, w) /\
  forall (expired : gset string) (r : outcome unit) (w' : World),
    delete_tensors env expired w = (r, w') ->
    exists evs,
      trace w' = (trace w ++ evs)%list /\
      (forall c, c ∈ critical_section t -> c ∉ evs) /\
      t ∉ memory_files (fs w').
Proof.
  intros Habsent.
  assert (delete_step env t tt w = (Ok tt, w)) as Hstep.
  { destruct (delete_step_spec env t w) as [[_ ?]|(_ & ? & _)]; done. }
  split; [done|]. split.
  - unfold delete_tensors.
    assert (set_iter env {[t]} = [t]) as ->.
    { apply Permutation_singleton_r. rewrite (set_iter_perm env {[t]}).
      by rewrite elements_singleton. }
    simpl. unfold bind. by rewrite Hstep.
  - intros expired r w' Hdel.
    destruct (delete_tensors_skips _ _ _ _ _ t Hdel (or_intror Habsent))
      as (evs & Htr & Hnone & Hsame & _).
    exists evs. split; [done|]. split; [done|]. by rewrite Hsame.
Qed.

Lemma evicting_absent_file_is_noop_witness :
  let env := Scenario.surroundings (fun _ => 0) [] in
  delete_step env "e" tt Scenario.world0 = (Ok tt, Scenario.world0) /\
  delete_tensors env {["e"]} Scenario.world0 = (Ok tt, Scenario.world0) /\
  forall (expired : gset string) (r : outcome unit) (w' : World),
    delete_tensors env expired Scenario.world0 = (r, w') ->
    exists evs,
      trace w' = (trace Scenario.world0 ++ evs)%list /\
      (forall c, c ∈ critical_section "e" -> c ∉ evs) /\
      "e" ∉ memory_files (fs w').
Proof.
  refine (evicting_absent_file_is_noop (Scenario.surroundings (fun _ => 0) [])
            "e" Scenario.world0 _).
  compute_done.
Defined.

(** C7. Lock discipline. Every run of [delete_tensors] makes a sequence
    of calls in which each removal of a cache file falls while the
    exclusive lock of that tensor is held ([lock_run] replays the calls
    from no lock held and never meets a removal outside its lock), the
    cache files gone afterwards are exactly the ones a [Remove] call was
    made on, and when the run returns normally every lock taken has been
    given back. The same holds of the calls of a whole turn. *)
Theorem lock_discipline (env : Env) :
  (forall (expired : gset string) (w : World),
     exists r w' evs held,
       delete_tensors env expired w = (r, w') /\
       trace w' = (trace w ++ evs)%list /\
       lock_run ∅ evs = Some held /\
       (r = Ok tt -> held = ∅) /\
       (forall t, t ∈ memory_files (fs w') <->
                  (t ∈ memory_files (fs w) /\ Remove t ∉ evs))) /\
  (forall (node_name : string) (models : list string)
          (model_tensors : gmap string (gset string)) (pod_list : list Pod)
          (keep_alive_dict : gmap string Z) (w : World),
     exists r w' evs held,
       cycle env node_name models model_tensors pod_list keep_alive_dict w = (r, w') /\
       trace w' = (trace w ++ evs)%list /\
       lock_run ∅ evs = Some held /\
       ((exists d, r = Ok d) -> held = ∅) /\
       (forall t, t ∈ memory_files (fs w') <->
                  (t ∈ memory_files (fs w) /\ Remove t ∉ evs))).
Proof.
  split.
  - intros expired w.
    destruct (delete_tensors_spec env expired w)
      as (r & mem & evs & Hrun & Hmem & _ & held & Hlock & Hheld).
    by exists r, (after_calls mem evs w), evs, held.
  - intros node_name models model_tensors pod_list d w.
    destruct (cycle_early_or_late env node_name models model_tensors pod_list d w)
      as [[e He]|(live & Hlive & Hlist)].
    + exists (Raise e), (after_calls (memory_files (fs w)) [Sleep COLLECT_PERIOD] w),
        [Sleep COLLECT_PERIOD], ∅.
      split; [done|]. split; [done|]. split; [done|].
      split; [by intros [? ?]|]. intros t. simpl. split; [|tauto].
      intros ?. split; [done|]. intros Ht.
      apply list_elem_of_singleton in Ht. discriminate Ht.
    + destruct (cycle_anatomy env node_name models model_tensors pod_list d w live
                  Hlive Hlist)
        as (expired & d' & r0 & mem & evs & _ & _ & _ & Hcyc & Htr & _ & Hmf & _
            & Hmem & _ & held & Hlock & Hheld).
      eexists _, _, ([Sleep COLLECT_PERIOD; Listdir] ++ evs)%list, held.
      split; [exact Hcyc|]. split; [done|]. split; [done|]. split.
      { intros [d0 Hd0]. apply Hheld. destruct r0 as [[]|e]; [done|discriminate]. }
      intros t. rewrite Hmf, Hmem. split.
      * intros [? Hn]. split; [done|]. intros Ht. apply elem_of_app in Ht as [Ht|Ht]; [|done].
        repeat (apply elem_of_cons in Ht as [Ht|Ht]; [discriminate Ht|]). inversion Ht.
      * intros [? Hn]. split; [done|]. intros Ht. apply Hn, elem_of_app. by right.
Qed.

Lemma lock_discipline_witness :
  exists r w' evs held,
    delete_tensors (Scenario.surroundings (fun _ => 0) []) {["c"; "d"]}
      Scenario.world0 = (r, w') /\
    trace w' = (trace Scenario.world0 ++ evs)%list /\
    lock_run ∅ evs = Some held /\
    (r = Ok tt -> held = ∅) /\
    (forall t, t ∈ memory_files (fs w') <->
               (t ∈ memory_files (fs Scenario.world0) /\ Remove t ∉ evs)).
Proof.
  exact (proj1 (lock_discipline (Scenario.surroundings (fun _ => 0) []))
           {["c"; "d"]} Scenario.world0).
Defined.

(** C8 (the claim as stated fails, in both halves). A failed listing of
    the cache directory is not turned into an empty snapshot; and with the
    removal of [c] failing, [delete_tensors] on [c] and [d] leaves [d]
    cached although [d] has both its files and no call on it would fail. *)
Lemma errors_are_fatal :
  ~ (forall (env : Env) (w : World),
       fails env Listdir = true ->
       exists w', get_existing_tensors env w = (Ok ∅, w')) /\
  ~ (forall (env : Env) (expired : gset string) (w w' : World)
            (r : outcome unit) (t : string),
       delete_tensors env expired w = (r, w') ->
       t ∈ expired -> t ∈ lock_files (fs w) -> t ∈ memory_files (fs w) ->
       (forall c, c ∈ critical_section t -> fails env c = false) ->
       t ∉ memory_files (fs w')).
Proof.
  split; intros H.
  - destruct (H (Scenario.surroundings (fun _ => 0) [Listdir]) Scenario.world0)
      as [w' Hw']; [reflexivity|].
    vm_compute in Hw'. discriminate Hw'.
  - apply (H (Scenario.surroundings (fun _ => 0) [Remove "c"]) {["c"; "d"]}
             Scenario.world0
             (mkWorld (mkFS Scenario.cached Scenario.cached) 0 [OpenW "c"; LockEx "c"])
             (Raise (OSError (Remove "c"))) "d").
    + vm_compute. reflexivity.
    + compute_done.
    + compute_done.
    + compute_done.
    + intros c Hc. unfold critical_section in Hc.
      repeat (apply elem_of_cons in Hc as [->|Hc]; [reflexivity|]). inversion Hc.
    + compute_done.
Qed.

(** C8 (as amended). Errors are not contained in the turn. When the
    listing of the cache directory fails, [get_existing_tensors] raises
    the error, with no snapshot, and so does the turn. When the eviction
    of a tensor raises, [delete_tensors] stops there with that error: the
    world is the one that eviction left, so the tensors that come after it
    in the iteration are not processed, and the turn raises the error too.
    A turn that raises ends the loop of [node_collector] with the same
    error, whatever rounds would follow. *)
Theorem errors_end_the_loop (env : Env) :
  (fails env Listdir = true ->
   forall (w : World),
     get_existing_tensors env w = (Raise (OSError Listdir), w) /\
     forall (node_name : string) (models : list string)
            (model_tensors : gmap string (gset string)) (pod_list : list Pod)
            (keep_alive_dict : gmap string Z),
     exists e,
       cycle env node_name models model_tensors pod_list keep_alive_dict w =
         (Raise e, after_calls (memory_files (fs w)) [Sleep COLLECT_PERIOD] w)) /\
  (forall (expired : gset string) (pre post : list string) (t : string)
          (w w1 w2 : World) (e : exn),
     set_iter env expired = (pre ++ t :: post)%list ->
     for_in pre (delete_step env) tt w = (Ok tt, w1) ->
     delete_step env t tt w1 = (Raise e, w2) ->
     delete_tensors env expired w = (Raise e, w2) /\
     (exists evs, trace w2 = (trace w1 ++ evs)%list /\
                  forall c, c ∈ evs -> c ∈ critical_section t) /\
     (forall t', t' <> t ->
        (t' ∈ memory_files (fs w2) <-> t' ∈ memory_files (fs w1))) /\
     forall (node_name : string) (models : list string)
            (model_tensors : gmap string (gset string)) (pod_list : list Pod)
            (keep_alive_dict keep_alive_dict' : gmap string Z) (w0 : World),
       reconcile env node_name models model_tensors pod_list keep_alive_dict w0 =
         (Ok (expired, keep_alive_dict'), w) ->
       cycle env node_name models model_tensors pod_list keep_alive_dict w0 =
         (Raise e, w2)) /\
  (forall (node_name : string) (models : list string)
          (model_tensors : gmap string (gset string)) (round : Round)
          (rounds : list Round) (keep_alive_dict : gmap string Z)
          (w w' : World) (e : exn),
     cycle env node_name models model_tensors (api_pods round) keep_alive_dict
       (mkWorld (disturb round (fs w)) (ticks w) (trace w)) = (Raise e, w') ->
     node_collector_loop env node_name models model_tensors (round :: rounds)
       keep_alive_dict w = (Raise e, w')).
Proof.
  split; [|split].
  - intros Hfail w. split.
    + by rewrite get_existing_tensors_spec, Hfail.
    + intros node_name models model_tensors pod_list d.
      rewrite cycle_cases, reconcile_cases, Hfail.
      destruct (running_tensors_of _ _) as [live|e]; by eexists.
  - intros expired pre post t w w1 w2 e Hiter Hpre Hstep.
    assert (delete_tensors env expired w = (Raise e, w2)) as Hdel.
    { unfold delete_tensors. rewrite Hiter, for_in_app, Hpre. simpl.
      unfold bind. by rewrite Hstep. }
    split; [done|].
    destruct (delete_step_spec env t w1)
      as [[_ Hok]|(_ & _ & evs & r & gone & Hev & Hrun)];
      [rewrite Hok in Hstep; discriminate Hstep|].
    rewrite Hrun in Hstep. simplify_eq Hstep; intros; subst.
    pose proof (eviction_calls _ _ _ _ _ Hev) as (Hcs & _ & _).
    split; [by exists evs|]. split.
    + intros t' Hne. simpl. destruct gone; [|done]. set_solver.
    + intros node_name models model_tensors pod_list d d' w0 Hrec.
      rewrite cycle_cases, Hrec. simpl. by rewrite Hdel.
  - intros node_name models model_tensors round rounds d w w' e Hcycle.
    cbn [node_collector_loop]. unfold bind at 1, others_act.
    unfold bind at 1. by rewrite Hcycle.
Qed.

Lemma errors_end_the_loop_witness :
  get_existing_tensors (Scenario.surroundings (fun _ => 0) [Listdir]) Scenario.world0 =
    (Raise (OSError Listdir), Scenario.world0) /\
  delete_tensors (Scenario.surroundings (fun _ => 0) [Remove "c"]) {["c"; "d"]}
    Scenario.world0 =
    (Raise (OSError (Remove "c")),
     mkWorld (mkFS Scenario.cached Scenario.cached) 0 [OpenW "c"; LockEx "c"]) /\
  node_collector_loop (Scenario.surroundings (fun _ => 0) [Listdir])
    Scenario.node Scenario.models Scenario.model_tensors
    [mkRound Scenario.pods_m1 id; mkRound Scenario.pods_m1 id] Scenario.tracked
    Scenario.world0 =
    (Raise (OSError Listdir),
     mkWorld (mkFS Scenario.cached Scenario.cached) 0 [Sleep COLLECT_PERIOD]).
Proof.
  split; [|split].
  - refine (proj1 (proj1 (errors_end_the_loop
                            (Scenario.surroundings (fun _ => 0) [Listdir])) _
                     Scenario.world0)).
    reflexivity.
  - refine (proj1 (proj1 (proj2 (errors_end_the_loop
                                   (Scenario.surroundings (fun _ => 0) [Remove "c"])))
                     {["c"; "d"]} [] ["d"] "c" Scenario.world0 Scenario.world0
                     (mkWorld (mkFS Scenario.cached Scenario.cached) 0
                        [OpenW "c"; LockEx "c"])
                     (OSError (Remove "c")) _ _ _)).
    + vm_compute. reflexivity.
    + reflexivity.
    + vm_compute. reflexivity.
  - refine (proj2 (proj2 (errors_end_the_loop
                            (Scenario.surroundings (fun _ => 0) [Listdir])))
              Scenario.node Scenario.models Scenario.model_tensors
              (mkRound Scenario.pods_m1 id) [mkRound Scenario.pods_m1 id]
              Scenario.tracked Scenario.world0 _ (OSError Listdir) _).
    vm_compute. reflexivity.
Defined.

(** * Further properties *)

(** ** Python strings: [split] and [strip] *)

Lemma append_cons (c : Ascii.ascii) (s t : string) :
  String c s +:+ t = String c (s +:+ t).
Proof. reflexivity. Qed.

Lemma append_empty_r (s : string) : s +:+ "" = s.
Proof. induction s as [|c s IH]; [reflexivity|]. by rewrite append_cons, IH. Qed.

Lemma append_assoc (s t u : string) : (s +:+ t) +:+ u = s +:+ t +:+ u.
Proof. induction s as [|c s IH]; [reflexivity|]. by rewrite !append_cons, IH. Qed.

Lemma chars_append (s t : string) :
  PyStr.chars (s +:+ t) = (PyStr.chars s ++ PyStr.chars t)%list.
Proof.
  induction s as [|c s IH]; [reflexivity|].
  rewrite append_cons. simpl. by rewrite IH.
Qed.

Lemma split_from_tokens (s : string) :
  forall tok, Forall (fun c => PyStr.isspace c = false) (PyStr.chars tok) ->
              Forall token (PyStr.split_from tok s).
Proof.
  assert (forall tok, Forall (fun c => PyStr.isspace c = false) (PyStr.chars tok) ->
                      Forall token (PyStr.flush tok)) as Hflush.
  { intros [|c tok] Htok; simpl; [constructor|].
    constructor; [|constructor]. by split. }
  induction s as [|c s IH]; intros tok Htok; simpl; [by apply Hflush|].
  destruct (PyStr.isspace c) eqn:Hc.
  - apply Forall_app. split; [by apply Hflush|]. apply IH. constructor.
  - apply IH. rewrite chars_append. apply Forall_app. split; [done|].
    simpl. by repeat constructor.
Qed.

(** White space ends the token under way; what follows is split afresh. *)
Lemma split_from_space (s1 s2 : string) (c : Ascii.ascii) :
  PyStr.isspace c = true ->
  forall tok, PyStr.split_from tok (s1 +:+ String c s2) =
              (PyStr.split_from tok s1 ++ PyStr.split s2)%list.
Proof.
  intros Hc. induction s1 as [|a s1 IH]; intros tok.
  - simpl. change ("" +:+ String c s2) with (String c s2). simpl. by rewrite Hc.
  - rewrite append_cons. simpl. destruct (PyStr.isspace a).
    + by rewrite IH, app_assoc.
    + apply IH.
Qed.

Lemma split_blank_prefix (ws s : string) :
  blank ws -> PyStr.split (ws +:+ s) = PyStr.split s.
Proof.
  unfold blank, PyStr.split. induction ws as [|c ws IH]; intros Hws; [reflexivity|].
  rewrite append_cons. simpl in *. inversion Hws as [|? ? Hc Hrest]; subst.
  rewrite Hc. simpl. by apply IH.
Qed.

Lemma split_from_token (t : string) :
  Forall (fun c => PyStr.isspace c = false) (PyStr.chars t) ->
  forall tok, PyStr.split_from tok t = PyStr.flush (tok +:+ t).
Proof.
  induction t as [|c t IH]; intros Ht tok; simpl.
  - by rewrite append_empty_r.
  - simpl in Ht. inversion Ht as [|? ? Hc Hrest]; subst. rewrite Hc.
    rewrite IH by done. by rewrite append_assoc.
Qed.

Lemma split_blank_separator (s1 ws s2 : string) :
  blank ws -> ws <> "" ->
  PyStr.split (s1 +:+ ws +:+ s2) = (PyStr.split s1 ++ PyStr.split s2)%list.
Proof.
  intros Hws Hne. destruct ws as [|c ws]; [done|].
  unfold blank in Hws. simpl in Hws. inversion Hws as [|? ? Hc Hrest]; subst.
  rewrite append_cons. unfold PyStr.split at 1. rewrite split_from_space by done.
  by rewrite split_blank_prefix.
Qed.

Lemma split_join (sep : string) (ts : list string) :
  blank sep -> sep <> "" -> Forall token ts ->
  PyStr.split (PyStr.join sep ts) = ts.
Proof.
  intros Hsep Hne. induction 1 as [|t ts [Ht Hchars] Hts IH]; [reflexivity|].
  assert (PyStr.split t = [t]) as Hone.
  { unfold PyStr.split. rewrite split_from_token by done.
    change ("" +:+ t) with t. by destruct t. }
  destruct ts as [|t' ts]; [done|].
  change (PyStr.join sep (t :: t' :: ts)) with (t +:+ sep +:+ PyStr.join sep (t' :: ts)).
  by rewrite split_blank_separator, Hone, IH.
Qed.

Lemma lstrip_blank_prefix (ws s : string) :
  blank ws -> PyStr.lstrip (ws +:+ s) = PyStr.lstrip s.
Proof.
  unfold blank. induction ws as [|c ws IH]; intros Hws; [reflexivity|].
  rewrite append_cons. simpl in *. inversion Hws as [|? ? Hc Hrest]; subst.
  rewrite Hc. by apply IH.
Qed.

Lemma rstrip_blank (ws : string) : blank ws -> PyStr.rstrip ws = "".
Proof.
  unfold blank. induction ws as [|c ws IH]; intros Hws; [reflexivity|].
  simpl in *. inversion Hws as [|? ? Hc Hrest]; subst.
  by rewrite IH, Hc.
Qed.

Lemma rstrip_blank_suffix (s ws : string) :
  blank ws -> PyStr.rstrip (s +:+ ws) = PyStr.rstrip s.
Proof.
  intros Hws. induction s as [|c s IH].
  - change ("" +:+ ws) with ws. by rewrite rstrip_blank.
  - rewrite append_cons. simpl. by rewrite IH.
Qed.

Lemma rstrip_fixed (s : string) (c : Ascii.ascii) :
  last (PyStr.chars s) = Some c -> PyStr.isspace c = false -> PyStr.rstrip s = s.
Proof.
  intros Hlast Hc. induction s as [|a s IH]; [discriminate|].
  simpl. destruct s as [|b s].
  - simpl in *. injection Hlast as ->. by rewrite Hc.
  - rewrite IH by done. reflexivity.
Qed.

Lemma split_blank_suffix (s ws : string) :
  blank ws -> PyStr.split (s +:+ ws) = PyStr.split s.
Proof.
  intros Hws. destruct ws as [|c ws]; [by rewrite append_empty_r|].
  rewrite <- (append_empty_r (String c ws)), split_blank_separator by done.
  by rewrite app_nil_r.
Qed.

Lemma strip_padded (lead name trail : string) :
  blank lead -> blank trail -> trimmed name ->
  PyStr.strip (lead +:+ name +:+ trail) = name.
Proof.
  intros Hl Ht [Hhead Hlast]. unfold PyStr.strip.
  rewrite lstrip_blank_prefix by done.
  destruct name as [|c name].
  - change ("" +:+ trail) with trail.
    assert (PyStr.lstrip trail = "") as ->; [|done].
    unfold blank in Ht. induction trail as [|a trail IH]; [done|].
    simpl in *. inversion Ht as [|? ? Ha Hrest]; subst. rewrite Ha. by apply IH.
  - rewrite append_cons. simpl. rewrite (Hhead c) by done.
    rewrite <- append_cons, rstrip_blank_suffix by done.
    destruct (last (PyStr.chars (String c name))) as [z|] eqn:Hz.
    + by apply (rstrip_fixed _ z), Hlast.
    + simpl in Hz. by apply last_None in Hz.
Qed.

(** ** The start-up *)

(** [get_tensors] on the files: with every listed model readable it is
    the map of the manifests; the first unreadable one stops it. *)
Lemma startup_get_tensors_fold (entries : gmap string string) (models : list string) :
  forall (mt0 : gmap string (gset string)),
    fold_left
      (fun acc model =>
         match acc with
         | Startup.Started model_tensors =>
             match entries !! model with
             | Some text =>
                 Startup.Started (<[model := list_to_set (PyStr.split text)]> model_tensors)
             | None => Startup.Unreadable (Startup.MODEL_PATH +:+ model)
             end
         | Startup.Unreadable path => Startup.Unreadable path
         end) models (Startup.Started mt0) =
    match list_find (fun m => entries !! m = None) models with
    | Some (_, m) => Startup.Unreadable (Startup.MODEL_PATH +:+ m)
    | None =>
        Startup.Started
          (fold_left (fun mt model => <[model := Startup.manifest_of entries model]> mt)
                     models mt0)
    end.
Proof.
  induction models as [|x models IH]; intros mt0; [reflexivity|].
  cbn [fold_left list_find].
  destruct (entries !! x) as [text|] eqn:Hx.
  - rewrite decide_False by done. rewrite IH.
    destruct (list_find _ models) as [[i m]|]; simpl; [done|].
    assert (Startup.manifest_of entries x = list_to_set (PyStr.split text)) as Hm
      by (unfold Startup.manifest_of; by rewrite Hx).
    by rewrite Hm.
  - rewrite decide_True by done. simpl.
    clear IH. induction models as [|y models IH]; [done|]. simpl. apply IH.
Qed.

Lemma startup_get_tensors_ok (entries : gmap string string) (models : list string) :
  (forall m, m ∈ models -> is_Some (entries !! m)) ->
  Startup.get_tensors entries models =
    Startup.Started (get_tensors (Startup.manifest_of entries) models).
Proof.
  intros Hall. unfold Startup.get_tensors. rewrite startup_get_tensors_fold.
  destruct (list_find _ models) as [[i m]|] eqn:Hfind; [|done].
  apply list_find_Some in Hfind as (Hi & Hnone & _).
  destruct (Hall m) as [text Ht]; [by eapply list_elem_of_lookup_2|]. congruence.
Qed.

(** X1. The tensor names that [get_tensors] reads are never empty and
    never contain white space, whatever the manifests hold. *)
Theorem manifest_names_are_tokens (entries : gmap string string)
    (models : list string) (model_tensors : gmap string (gset string))
    (m : string) (tensors : gset string) (t : string) :
  Startup.get_tensors entries models = Startup.Started model_tensors ->
  model_tensors !! m = Some tensors ->
  t ∈ tensors ->
  token t.
Proof.
  unfold Startup.get_tensors. rewrite startup_get_tensors_fold.
  destruct (list_find _ models) as [[i x]|]; [discriminate|].
  intros Hmt Hm Ht. injection Hmt as <-.
  change (fold_left _ models ∅) with (get_tensors (Startup.manifest_of entries) models) in Hm.
  rewrite get_tensors_lookup in Hm. destruct (decide (m ∈ models)); [|discriminate].
  injection Hm as <-. unfold Startup.manifest_of in Ht.
  destruct (entries !! m) as [text|]; [|set_solver].
  apply elem_of_list_to_set in Ht.
  pose proof (split_from_tokens text "" (List.Forall_nil _)) as Hall.
  rewrite Forall_forall in Hall. by apply Hall.
Qed.

Lemma manifest_names_are_tokens_witness : token "fc/w".
Proof.
  refine (manifest_names_are_tokens {["m1" := " conv1  fc/w "]} ["m1"]
            {["m1" := {["conv1"; "fc/w"]}]} "m1" {["conv1"; "fc/w"]} "fc/w" _ _ _).
  - vm_compute. reflexivity.
  - vm_compute. reflexivity.
  - compute_done.
Defined.

(** X2. When the file of every listed model can be read, [get_tensors]
    returns a map whose keys are exactly the listed models, each with the
    set of the white-space separated names of its file. *)
Theorem startup_reads_every_manifest (entries : gmap string string)
    (models : list string) :
  (forall m, m ∈ models -> is_Some (entries !! m)) ->
  exists model_tensors,
    Startup.get_tensors entries models = Startup.Started model_tensors /\
    (forall m, is_Some (model_tensors !! m) <-> m ∈ models) /\
    (forall m text, m ∈ models -> entries !! m = Some text ->
       model_tensors !! m = Some (list_to_set (PyStr.split text))).
Proof.
  intros Hall. exists (get_tensors (Startup.manifest_of entries) models).
  split; [by apply startup_get_tensors_ok|]. split.
  - intros m. rewrite get_tensors_lookup.
    destruct (decide (m ∈ models)); split; intros H; try done;
      try (by eexists); by destruct H.
  - intros m text Hm Ht. rewrite get_tensors_lookup, decide_True by done.
    unfold Startup.manifest_of. by rewrite Ht.
Qed.

Lemma startup_reads_every_manifest_witness :
  exists model_tensors,
    Startup.get_tensors {["m1" := "a b"; "m2" := "b c"]} ["m1"; "m2"] =
      Startup.Started model_tensors /\
    (forall m, is_Some (model_tensors !! m) <-> m ∈ ["m1"; "m2"]) /\
    (forall m text, m ∈ ["m1"; "m2"] ->
       ({["m1" := "a b"; "m2" := "b c"]} : gmap string string) !! m = Some text ->
       model_tensors !! m = Some (list_to_set (PyStr.split text))).
Proof.
  refine (startup_reads_every_manifest {["m1" := "a b"; "m2" := "b c"]} ["m1"; "m2"] _).
  intros m Hm.
  repeat (apply elem_of_cons in Hm as [->|Hm]; [by eexists|]). inversion Hm.
Defined.

(** X3. [get_tensors] stops at the first listed model whose file cannot
    be opened, with the path of that file; the models after it are not
    read. *)
Theorem startup_stops_at_unreadable_manifest (entries : gmap string string)
    (pre post : list string) (m : string) :
  (forall m', m' ∈ pre -> is_Some (entries !! m')) ->
  entries !! m = None ->
  Startup.get_tensors entries (pre ++ m :: post) =
    Startup.Unreadable ("/models/" +:+ m).
Proof.
  intros Hpre Hm. unfold Startup.get_tensors. rewrite startup_get_tensors_fold.
  destruct (list_find _ (pre ++ m :: post)) as [[i x]|] eqn:Hfind.
  - apply list_find_Some in Hfind as (Hi & Hx & Hmin).
    destruct (Nat.lt_trichotomy i (length pre)) as [Hlt|[->|Hgt]].
    + rewrite lookup_app_l in Hi by done.
      destruct (Hpre x) as [? ?]; [by eapply list_elem_of_lookup_2|]. congruence.
    + rewrite list_lookup_middle in Hi by done. by injection Hi as <-.
    + exfalso. apply (Hmin (length pre) m); [by apply list_lookup_middle|done|done].
  - apply list_find_None in Hfind. rewrite Forall_forall in Hfind.
    exfalso. apply (Hfind m); [|done]. apply elem_of_app. right. left.
Qed.

Lemma startup_stops_at_unreadable_manifest_witness :
  Startup.get_tensors {["m1" := "a b"]} (["m1"] ++ "m2" :: ["m3"]) =
    Startup.Unreadable ("/models/" +:+ "m2").
Proof.
  refine (startup_stops_at_unreadable_manifest {["m1" := "a b"]} ["m1"] ["m3"] "m2" _ _).
  - intros m' Hm'. apply list_elem_of_singleton in Hm' as ->. by eexists.
  - vm_compute. reflexivity.
Defined.

(** X4. The layout of a manifest is free: names separated by any
    non-empty white space, with any white space before and after, give the
    model exactly the set of those names. *)
Theorem manifest_layout_is_free (entries : gmap string string)
    (models : list string) (m : string) (lead sep trail : string)
    (names : list string) :
  (forall m', m' ∈ models -> is_Some (entries !! m')) ->
  m ∈ models ->
  entries !! m = Some (lead +:+ PyStr.join sep names +:+ trail) ->
  blank lead -> blank trail -> blank sep -> sep <> "" ->
  Forall token names ->
  PyStr.split (lead +:+ PyStr.join sep names +:+ trail) = names /\
  exists model_tensors,
    Startup.get_tensors entries models = Startup.Started model_tensors /\
    model_tensors !! m = Some (list_to_set names).
Proof.
  intros Hall Hm Htext Hlead Htrail Hsep Hne Hnames.
  assert (PyStr.split (lead +:+ PyStr.join sep names +:+ trail) = names) as Hsplit.
  { rewrite split_blank_prefix, split_blank_suffix by done. by apply split_join. }
  split; [done|].
  exists (get_tensors (Startup.manifest_of entries) models).
  split; [by apply startup_get_tensors_ok|].
  rewrite get_tensors_lookup, decide_True by done.
  unfold Startup.manifest_of. by rewrite Htext, Hsplit.
Qed.

Lemma manifest_layout_is_free_witness :
  PyStr.split ("
" +:+ PyStr.join "  " ["a"; "b"] +:+ " ") = ["a"; "b"] /\
  exists model_tensors,
    Startup.get_tensors {["m1" := "
a  b "]} ["m1"] = Startup.Started model_tensors /\
    model_tensors !! "m1" = Some (list_to_set ["a"; "b"]).
Proof.
  refine (manifest_layout_is_free {["m1" := "
a  b "]} ["m1"] "m1" "
" "  " " " ["a"; "b"] _ _ _ _ _ _ _ _).
  - intros m' Hm'. apply list_elem_of_singleton in Hm' as ->. by eexists.
  - left.
  - vm_compute. reflexivity.
  - repeat constructor.
  - repeat constructor.
  - repeat constructor.
  - discriminate.
  - repeat constructor; discriminate.
Defined.

(** X5. The start-up of [node_collector] hands the loop what it read:
    when [MODEL_PATH] is listed and the file of every listed model can be
    read, the loop is entered on the listed models, with the names of
    each manifest as its tensors and an empty registry. When [MODEL_PATH]
    cannot be listed the collector stops there, before any turn. *)
Theorem startup_enters_the_loop (env : Env) (node_name : string)
    (models : list string) (entries : gmap string string) (rounds : list Round) :
  (forall m, m ∈ models -> is_Some (entries !! m)) ->
  Startup.node_collector env node_name (Some models) entries rounds =
    Startup.Started
      (node_collector env node_name models (Startup.manifest_of entries) rounds) /\
  Startup.node_collector env node_name None entries rounds =
    Startup.Unreadable "/models/".
Proof.
  intros Hall. split; [|reflexivity].
  unfold Startup.node_collector, Startup.get_models.
  by rewrite startup_get_tensors_ok.
Qed.

Lemma startup_enters_the_loop_witness :
  Startup.node_collector (Scenario.surroundings (fun _ => 0) []) Scenario.node
    (Some ["m1"; "m2"]) {["m1" := "a b"; "m2" := "b c"]} [] =
    Startup.Started
      (node_collector (Scenario.surroundings (fun _ => 0) []) Scenario.node
         ["m1"; "m2"] (Startup.manifest_of {["m1" := "a b"; "m2" := "b c"]}) []) /\
  Startup.node_collector (Scenario.surroundings (fun _ => 0) []) Scenario.node
    None {["m1" := "a b"; "m2" := "b c"]} [] = Startup.Unreadable "/models/".
Proof.
  refine (startup_enters_the_loop (Scenario.surroundings (fun _ => 0) [])
            Scenario.node ["m1"; "m2"] {["m1" := "a b"; "m2" := "b c"]} [] _).
  intros m Hm.
  repeat (apply elem_of_cons in Hm as [->|Hm]; [by eexists|]). inversion Hm.
Defined.

(** X6. [main] takes the node name from [/root/hostname] without the
    white space around it (a final newline, say), and stops when the file
    cannot be opened. *)
Theorem hostname_is_stripped (env : Env) (lead name trail : string)
    (listing : option (list string)) (entries : gmap string string)
    (rounds : list Round) :
  blank lead -> blank trail -> trimmed name ->
  PyStr.strip (lead +:+ name +:+ trail) = name /\
  Startup.main env (Some (lead +:+ name +:+ trail)) listing entries rounds =
    Startup.node_collector env name listing entries rounds /\
  Startup.main env None listing entries rounds = Startup.Unreadable "/root/hostname".
Proof.
  intros Hl Ht Hn. split; [by apply strip_padded|]. split; [|reflexivity].
  unfold Startup.main. by rewrite strip_padded.
Qed.

Lemma hostname_is_stripped_witness :
  PyStr.strip ("" +:+ "node 1" +:+ "
") = "node 1" /\
  Startup.main (Scenario.surroundings (fun _ => 0) [])
    (Some ("" +:+ "node 1" +:+ "
")) None ∅ [] =
    Startup.node_collector (Scenario.surroundings (fun _ => 0) []) "node 1" None ∅ [] /\
  Startup.main (Scenario.surroundings (fun _ => 0) []) None None ∅ [] =
    Startup.Unreadable "/root/hostname".
Proof.
  refine (hostname_is_stripped (Scenario.surroundings (fun _ => 0) [])
            "" "node 1" "
" None ∅ [] _ _ _).
  - constructor.
  - repeat constructor.
  - split; intros c Hc; vm_compute in Hc; injection Hc as <-; reflexivity.
Defined.

(** ** The live set, further *)

Lemma substring_of_trans (a b c : string) :
  PyStr.substring_of a b -> PyStr.substring_of b c -> PyStr.substring_of a c.
Proof.
  intros (p1 & q1 & ->) (p2 & q2 & ->).
  exists (p2 +:+ p1), (q1 +:+ q2). by rewrite !append_assoc.
Qed.

(** A live set that was computed is the union of the tensor sets of the
    running models, all of which have their key. *)
Lemma running_tensors_of_inv (model_tensors : gmap string (gset string))
    (running_models : list string) (live : gset string) :
  running_tensors_of model_tensors running_models = Ok live ->
  (forall m, m ∈ running_models -> is_Some (model_tensors !! m)) /\
  (forall t, t ∈ live <->
     exists m tensors, m ∈ running_models /\ model_tensors !! m = Some tensors /\
                       t ∈ tensors).
Proof.
  intros Hrun.
  assert (forall m, m ∈ running_models -> is_Some (model_tensors !! m)) as Hall.
  { revert Hrun. unfold running_tensors_of. generalize (∅ : gset string).
    induction running_models as [|x l IH]; intros s0 Hrun m Hm; [inversion Hm|].
    simpl in Hrun. destruct (model_tensors !! x) as [tensors|] eqn:Hx.
    - apply elem_of_cons in Hm as [->|Hm]; [by eexists|]. by eapply IH.
    - exfalso. clear -Hrun. induction l as [|y l IHl]; [discriminate|]. by apply IHl. }
  split; [done|].
  destruct (running_tensors_of_spec model_tensors running_models Hall)
    as (live' & Hrun' & Hlive).
  rewrite Hrun in Hrun'. by injection Hrun' as <-.
Qed.

(** X7. Matching by substring runs names together: a model whose name is
    a substring of the name of a model that is running counts as running
    too, so its tensors are in the live set; and a model with the empty
    name is running as soon as there is any pod on the node. *)
Theorem substring_names_run_together (m m' : string) (pods : list string) :
  PyStr.substring_of m m' ->
  is_running m' pods = true ->
  is_running m pods = true /\
  (is_running "" pods = true) /\
  forall (manifest : string -> gset string) (models : list string)
         (live : gset string),
    m ∈ models ->
    running_tensors_of (get_tensors manifest models)
      (running_models_of models pods) = Ok live ->
    manifest m ⊆ live.
Proof.
  intros Hsub Hrun'.
  apply is_running_spec in Hrun' as (p & Hp & Hin).
  assert (is_running m pods = true) as Hrun.
  { apply is_running_spec. exists p. split; [done|]. by eapply substring_of_trans. }
  split; [done|]. split.
  - apply is_running_spec. exists p. split; [done|]. by exists "", p.
  - intros manifest models live Hm Hlive t Ht.
    apply running_tensors_of_inv in Hlive as [_ Hlive]. apply Hlive.
    exists m, (manifest m). split; [by apply elem_of_running_models|].
    split; [|done]. by rewrite get_tensors_lookup, decide_True.
Qed.

Lemma substring_names_run_together_witness :
  is_running "resnet" ["pod-resnet50-abc"] = true /\
  (is_running "" ["pod-resnet50-abc"] = true) /\
  forall (manifest : string -> gset string) (models : list string)
         (live : gset string),
    "resnet" ∈ models ->
    running_tensors_of (get_tensors manifest models)
      (running_models_of models ["pod-resnet50-abc"]) = Ok live ->
    manifest "resnet" ⊆ live.
Proof.
  refine (substring_names_run_together "resnet" "resnet50" ["pod-resnet50-abc"] _ _).
  - by exists "", "50".
  - vm_compute. reflexivity.
Defined.

(** X8. More workloads never shrink the live set: when every pod of one
    listing is in another, the live set of the first lies within the live
    set of the second. *)
Theorem more_workloads_more_live (node_name : string) (models : list string)
    (model_tensors : gmap string (gset string)) (pod_list pod_list' : list Pod)
    (live live' : gset string) :
  (forall pod, pod ∈ pod_list -> pod ∈ pod_list') ->
  running_tensors_of model_tensors
    (running_models_of models (running_pods_of node_name pod_list)) = Ok live ->
  running_tensors_of model_tensors
    (running_models_of models (running_pods_of node_name pod_list')) = Ok live' ->
  live ⊆ live'.
Proof.
  intros Hsub Hlive Hlive' t Ht.
  apply running_tensors_of_inv in Hlive as [_ Hlive].
  apply running_tensors_of_inv in Hlive' as [_ Hlive'].
  apply Hlive in Ht as (m & tensors & Hm & Hmt & Ht). apply Hlive'.
  exists m, tensors. split; [|done].
  apply elem_of_running_models in Hm as [Hm Hrun]. apply elem_of_running_models.
  split; [done|]. apply is_running_spec in Hrun as (p & Hp & Hin).
  apply is_running_spec. exists p. split; [|done].
  apply elem_of_running_pods in Hp as (pod & Hpod & Hnode & Hname).
  apply elem_of_running_pods. exists pod. auto.
Qed.

Lemma more_workloads_more_live_witness :
  ({["a"; "b"]} : gset string) ⊆ {["a"; "b"; "c"]}.
Proof.
  refine (more_workloads_more_live Scenario.node Scenario.models
            Scenario.model_tensors Scenario.pods_m1 Scenario.pods_m1_m2
            {["a"; "b"]} {["a"; "b"; "c"]} _ _ _).
  - intros pod Hpod. apply list_elem_of_singleton in Hpod as ->. left.
  - vm_compute. reflexivity.
  - vm_compute. reflexivity.
Defined.

(** X9. The collector is node-local: pods scheduled on other nodes, or
    not scheduled at all, change nothing; a turn with them in the listing
    is the turn without them. *)
Theorem other_nodes_are_ignored (env : Env) (node_name : string)
    (models : list string) (model_tensors : gmap string (gset string))
    (before others after : list Pod) (keep_alive_dict : gmap string Z) (w : World) :
  (forall pod, pod ∈ others -> spec_node_name pod <> Some node_name) ->
  running_pods_of node_name (before ++ others ++ after) =
    running_pods_of node_name (before ++ after) /\
  cycle env node_name models model_tensors (before ++ others ++ after)
    keep_alive_dict w =
  cycle env node_name models model_tensors (before ++ after) keep_alive_dict w.
Proof.
  intros Hothers.
  assert (running_pods_of node_name (before ++ others ++ after) =
          running_pods_of node_name (before ++ after)) as Hsame.
  { unfold running_pods_of. rewrite !filter_app.
    assert (filter (fun pod => spec_node_name pod = Some node_name) others = []) as ->;
      [|done].
    induction others as [|pod others IH]; [done|].
    rewrite filter_cons_False by (apply Hothers; left).
    apply IH. intros pod' Hpod'. apply Hothers. by right. }
  split; [done|]. by rewrite !cycle_cases, !reconcile_cases, Hsame.
Qed.

Lemma other_nodes_are_ignored_witness :
  running_pods_of Scenario.node
    (Scenario.pods_m1 ++ [mkPod "pod-m2-xyz" (Some "node2"); mkPod "pod-m2-new" None] ++ []) =
    running_pods_of Scenario.node (Scenario.pods_m1 ++ []) /\
  cycle (Scenario.surroundings (fun _ => 0) []) Scenario.node Scenario.models
    Scenario.model_tensors
    (Scenario.pods_m1 ++ [mkPod "pod-m2-xyz" (Some "node2"); mkPod "pod-m2-new" None] ++ [])
    ∅ Scenario.world0 =
  cycle (Scenario.surroundings (fun _ => 0) []) Scenario.node Scenario.models
    Scenario.model_tensors (Scenario.pods_m1 ++ []) ∅ Scenario.world0.
Proof.
  refine (other_nodes_are_ignored (Scenario.surroundings (fun _ => 0) [])
            Scenario.node Scenario.models Scenario.model_tensors Scenario.pods_m1
            [mkPod "pod-m2-xyz" (Some "node2"); mkPod "pod-m2-new" None] []
            ∅ Scenario.world0 _).
  intros pod Hpod.
  repeat (apply elem_of_cons in Hpod as [->|Hpod]; [discriminate|]). inversion Hpod.
Defined.

(** X10. A running model without a key: when the first running model
    that [model_tensors] lacks is [m], the turn raises [KeyError] for [m]
    right after its sleep; the cache directory is not listed, the clock is
    not read and no file is touched. *)
Theorem missing_model_raises_key_error (env : Env) (node_name : string)
    (models : list string) (model_tensors : gmap string (gset string))
    (pod_list : list Pod) (keep_alive_dict : gmap string Z) (w : World)
    (pre post : list string) (m : string) :
  running_models_of models (running_pods_of node_name pod_list) = (pre ++ m :: post)%list ->
  (forall m', m' ∈ pre -> is_Some (model_tensors !! m')) ->
  model_tensors !! m = None ->
  cycle env node_name models model_tensors pod_list keep_alive_dict w =
    (Raise (KeyError m),
     mkWorld (fs w) (ticks w) (trace w ++ [Sleep COLLECT_PERIOD])).
Proof.
  intros Hrm Hpre Hm. rewrite cycle_cases, reconcile_cases, Hrm.
  assert (running_tensors_of model_tensors (pre ++ m :: post) = Raise (KeyError m)) as ->.
  { clear Hrm. unfold running_tensors_of. generalize (∅ : gset string).
    induction pre as [|x pre IH]; intros s0; simpl.
    - rewrite Hm. clear. induction post as [|y l IHl]; [done|]. apply IHl.
    - destruct (Hpre x) as [tensors ->]; [left|]. apply IH.
      intros m' Hm'. apply Hpre. by right. }
  unfold after_calls. by destruct w as [[mem lk] n tr].
Qed.

Lemma missing_model_raises_key_error_witness :
  cycle (Scenario.surroundings (fun _ => 0) []) Scenario.node Scenario.models
    {["m2" := {["b"; "c"]}]} Scenario.pods_m1 ∅ Scenario.world0 =
    (Raise (KeyError "m1"),
     mkWorld (fs Scenario.world0) (ticks Scenario.world0)
       (trace Scenario.world0 ++ [Sleep COLLECT_PERIOD])).
Proof.
  refine (missing_model_raises_key_error (Scenario.surroundings (fun _ => 0) [])
            Scenario.node Scenario.models {["m2" := {["b"; "c"]}]} Scenario.pods_m1
            ∅ Scenario.world0 [] [] "m1" _ _ _).
  - vm_compute. reflexivity.
  - intros m' Hm'. inversion Hm'.
  - vm_compute. reflexivity.
Defined.

(** ** The keep-alive bookkeeping, further *)

(** X11. [get_expired_tensor] is pure bookkeeping: it always returns, it
    reads the clock exactly once for each stale tensor and touches neither
    the directories nor the calls made; afterwards the registry tracks
    what it tracked before and every stale tensor; and what it expires
    was both stale and tracked before the call. *)
Theorem expiry_is_pure_bookkeeping (env : Env) (stale : gset string)
    (keep_alive_dict : gmap string Z) (w : World) :
  exists expired keep_alive_dict',
    get_expired_tensor env stale keep_alive_dict w =
      (Ok (expired, keep_alive_dict'),
       mkWorld (fs w) (ticks w + size stale) (trace w)) /\
    dom keep_alive_dict' = dom keep_alive_dict ∪ stale /\
    expired ⊆ stale ∩ dom keep_alive_dict.
Proof.
  destruct (get_expired_tensor_spec env stale keep_alive_dict w)
    as (expired & d' & Hrun & Hd & He).
  exists expired, d'. split; [done|]. split.
  - apply set_eq. intros t. rewrite elem_of_union, !elem_of_dom.
    specialize (Hd t). destruct (keep_alive_dict !! t) as [since|] eqn:Ht.
    + rewrite Hd. split; [by left|by eexists].
    + destruct Hd as [[Hno ->]|(i & Hi & ->)].
      * split; [by intros [? ?]|]. intros [[? ?]|?]; done.
      * apply position_in_iter in Hi as [Hi _]. split; [by right|by eexists].
  - intros t Ht. apply He in Ht as (i & since & Hi & Hs & _).
    apply position_in_iter in Hi as [Hi _].
    apply elem_of_intersection. split; [done|]. apply elem_of_dom. by eexists.
Qed.

(** X12. Stamps are written once. A call whose stale tensors are all
    tracked already hands the registry back unchanged, whatever the
    clock says. *)
Theorem tracked_tensors_keep_their_stamps (env : Env) (stale expired : gset string)
    (keep_alive_dict keep_alive_dict' : gmap string Z) (w w' : World) :
  stale ⊆ dom keep_alive_dict ->
  get_expired_tensor env stale keep_alive_dict w =
    (Ok (expired, keep_alive_dict'), w') ->
  keep_alive_dict' = keep_alive_dict.
Proof.
  intros Hsub Hget. expired_facts Hget Hd He.
  apply map_eq. intros t. specialize (Hd t).
  destruct (keep_alive_dict !! t) as [since|] eqn:Ht; [done|].
  destruct Hd as [[_ ->]|(i & Hi & _)]; [done|].
  apply position_in_iter in Hi as [Hi _]. apply Hsub, elem_of_dom in Hi as [? ?].
  congruence.
Qed.

Lemma tracked_tensors_keep_their_stamps_witness :
  Scenario.tracked = Scenario.tracked.
Proof.
  refine (tracked_tensors_keep_their_stamps
            (Scenario.surroundings (fun _ => 65 * Scenario.second) [])
            {["c"; "d"]} {["c"; "d"]} Scenario.tracked Scenario.tracked
            Scenario.world0 (tick_by 2 Scenario.world0) _ _).
  - compute_done.
  - vm_compute. reflexivity.
Defined.

(** X13. A tensor that is overdue is expired, in whatever order the set
    is iterated: if the clock does not run backwards, a stale tensor whose
    stamp is at least one grace period before the first reading of the
    call is in the set the call returns. *)
Theorem overdue_tensors_are_expired (env : Env) (stale expired : gset string)
    (keep_alive_dict keep_alive_dict' : gmap string Z) (w w' : World)
    (t : string) (since : Z) :
  monotone_clock env ->
  t ∈ stale ->
  keep_alive_dict !! t = Some since ->
  since + 60 * 1000000 <= now_at env (ticks w) ->
  get_expired_tensor env stale keep_alive_dict w =
    (Ok (expired, keep_alive_dict'), w') ->
  t ∈ expired.
Proof.
  intros Hmono Hst Hs Hle Hget. expired_facts Hget Hd He. apply He.
  apply (elem_of_set_iter env) in Hst.
  destruct (list_elem_of_lookup_1 _ _ Hst) as [i Hi].
  exists i, since. split; [done|]. split; [done|].
  etrans; [exact Hle|]. apply Hmono. lia.
Qed.

Lemma overdue_tensors_are_expired_witness :
  "d" ∈ ({["c"; "d"]} : gset string).
Proof.
  refine (overdue_tensors_are_expired
            (Scenario.surroundings (fun n => 60 * Scenario.second + Z.of_nat n) [])
            {["c"; "d"]} {["c"; "d"]} Scenario.tracked Scenario.tracked
            Scenario.world0 (tick_by 2 Scenario.world0) "d" 0 _ _ _ _ _).
  - intros n m Hnm. simpl. lia.
  - compute_done.
  - vm_compute. reflexivity.
  - vm_compute. discriminate.
  - vm_compute. reflexivity.
Defined.

(** X14. The test is inclusive and exact. When the clock shows the same
    time [now] at every reading of a call, the call expires exactly the
    stale tensors whose stamp is at most [now] minus sixty seconds, the
    one stamped exactly sixty seconds ago included, and stamps every
    untracked stale tensor with [now]. *)
Theorem expired_set_on_a_still_clock (env : Env) (stale expired : gset string)
    (keep_alive_dict keep_alive_dict' : gmap string Z) (w w' : World) (now : Z) :
  (forall n, (ticks w <= n < ticks w + size stale)%nat -> now_at env n = now) ->
  get_expired_tensor env stale keep_alive_dict w =
    (Ok (expired, keep_alive_dict'), w') ->
  (forall t, t ∈ expired <->
     (t ∈ stale /\ exists since, keep_alive_dict !! t = Some since /\
                                 since <= now - 60000000)) /\
  (forall t, t ∈ stale -> keep_alive_dict !! t = None ->
     keep_alive_dict' !! t = Some now).
Proof.
  intros Hstill Hget. expired_facts Hget Hd He. split.
  - intros t. rewrite He. split.
    + intros (i & since & Hi & Hs & Hle).
      apply position_in_iter in Hi as [Hin Hi]. split; [done|].
      exists since. split; [done|]. rewrite Hstill in Hle by lia.
      unfold GRACE, timedelta_minutes, KEEP_ALIVE in Hle. lia.
    + intros (Hin & since & Hs & Hle).
      apply (elem_of_set_iter env) in Hin.
      destruct (list_elem_of_lookup_1 _ _ Hin) as [i Hi].
      exists i, since. split; [done|]. split; [done|].
      pose proof (position_in_iter env _ _ _ Hi) as [_ Hlt].
      rewrite Hstill by lia. unfold GRACE, timedelta_minutes, KEEP_ALIVE. lia.
  - intros t Hin Hnone. specialize (Hd t). rewrite Hnone in Hd.
    destruct Hd as [[Hno _]|(i & Hi & ->)]; [done|].
    apply position_in_iter in Hi as [_ Hi]. by rewrite Hstill by lia.
Qed.

Lemma expired_set_on_a_still_clock_witness :
  (forall t, t ∈ ({["c"]} : gset string) <->
     (t ∈ ({["c"; "d"; "e"]} : gset string) /\
      exists since, ({["c" := 5; "d" := 6]} : gmap string Z) !! t = Some since /\
                    since <= 60000005 - 60000000)) /\
  (forall t, t ∈ ({["c"; "d"; "e"]} : gset string) ->
     ({["c" := 5; "d" := 6]} : gmap string Z) !! t = None ->
     ({["c" := 5; "d" := 6; "e" := 60000005]} : gmap string Z) !! t = Some 60000005).
Proof.
  refine (expired_set_on_a_still_clock
            (Scenario.surroundings (fun _ => 60000005) [])
            {["c"; "d"; "e"]} {["c"]} {["c" := 5; "d" := 6]}
            {["c" := 5; "d" := 6; "e" := 60000005]}
            Scenario.world0 (tick_by 3 Scenario.world0) 60000005 _ _).
  - reflexivity.
  - vm_compute. reflexivity.
Defined.

(** X15. Cold start: from an empty registry nothing is expired, so the
    first turn of [node_collector] makes no call of an eviction and leaves
    both directories as they are, whatever is cached and however long it
    has been there. *)
Theorem first_turn_evicts_nothing (env : Env) (node_name : string)
    (models : list string) (model_tensors : gmap string (gset string))
    (pod_list : list Pod) (w : World) :
  (forall (stale : gset string) (w0 : World),
     exists keep_alive_dict' w1,
       get_expired_tensor env stale ∅ w0 = (Ok (∅, keep_alive_dict'), w1)) /\
  exists r w',
    cycle env node_name models model_tensors pod_list ∅ w = (r, w') /\
    fs w' = fs w /\
    (trace w' = (trace w ++ [Sleep COLLECT_PERIOD])%list \/
     trace w' = (trace w ++ [Sleep COLLECT_PERIOD; Listdir])%list).
Proof.
  assert (forall (stale : gset string) (w0 : World),
            exists d' w1, get_expired_tensor env stale ∅ w0 = (Ok (∅, d'), w1)) as Hcold.
  { intros stale w0.
    destruct (get_expired_tensor_spec env stale ∅ w0) as (expired & d' & Hrun & _ & He).
    assert (expired = ∅) as ->.
    { apply set_eq. intros t. rewrite He. split; [|set_solver].
      intros (i & since & _ & Hs & _). by rewrite lookup_empty in Hs. }
    by eexists _, _. }
  split; [done|].
  rewrite cycle_cases, reconcile_cases.
  destruct (running_tensors_of _ _) as [live|e].
  - destruct (fails env Listdir).
    + eexists _, _. split; [done|]. split; [by destruct w as [[??]??]|by left].
    + destruct (Hcold (memory_files (fs w) ∖ live)
                  (after_calls (memory_files (fs w)) [Sleep COLLECT_PERIOD; Listdir] w))
        as (d' & w1 & Hget).
      pose proof Hget as Hget'. expired_facts Hget' Hd He.
      rewrite Hget. simpl. unfold delete_tensors.
      assert (set_iter env ∅ = []) as ->.
      { apply Permutation_nil_r. rewrite (set_iter_perm env ∅). by rewrite elements_empty. }
      simpl. eexists _, _. split; [done|]. simpl.
      split; [by destruct w as [[??]??]|by right].
  - eexists _, _. split; [done|]. split; [by destruct w as [[??]??]|by left].
Qed.

(** ** The evictor, further *)




(** A tensor that is not evictable is skipped. *)
Lemma delete_loop_skip (env : Env) (l : list string) (w : World) :
  (forall t, t ∈ l -> ~ evictable w t) ->
  for_in l (delete_step env) tt w = (Ok tt, w).
Proof.
  induction l as [|x l IH]; intros Hnone; [done|].
  cbn [for_in]. unfold bind.
  destruct (delete_step_spec env x w) as [[_ ->]|(Hl & Hm & _)].
  - apply IH. intros t Ht. apply Hnone. by right.
  - exfalso. apply (Hnone x); [left|by split].
Qed.


(** A loop that returns normally leaves no listed tensor with both its
    files. *)
Lemma delete_loop_ok_gone (env : Env) (l : list string) :
  forall w w', for_in l (delete_step env) tt w = (Ok tt, w') ->
               forall t, t ∈ l -> ~ evictable w' t.
Proof.
  induction l as [|x l IH]; intros w w' Hrun t Ht; [inversion Ht|].
  cbn [for_in] in Hrun. unfold bind in Hrun.
  destruct (delete_step_spec env x w)
    as [[Hno Hstep]|(Hl & Hm & evs & r & gone & Hev & Hstep)]; rewrite Hstep in Hrun.
  - apply elem_of_cons in Ht as [->|Ht]; [|by eapply IH].
    destruct (delete_loop env l w) as (r0 & mem & evs0 & Hrun0 & Hmem & _).
    rewrite Hrun0 in Hrun. simplify_eq Hrun; intros; subst.
    unfold evictable. simpl. rewrite Hmem. tauto.
  - destruct r as [[]|e]; [|discriminate].
    apply elem_of_cons in Ht as [->|Ht]; [|by eapply IH].
    inversion Hev; subst.
    destruct (delete_loop env l
                (after_calls (memory_files (fs w) ∖ {[x]}) (critical_section x) w))
      as (r0 & mem & evs0 & Hrun0 & Hmem & _).
    rewrite Hrun0 in Hrun. simplify_eq Hrun; intros; subst.
    unfold evictable. simpl. rewrite Hmem. simpl. set_solver.
Qed.

(** A loop that raises stopped inside the eviction of one tensor, after
    complete evictions only. *)
Lemma delete_loop_raise (env : Env) (l : list string) :
  forall w w' e,
    for_in l (delete_step env) tt w = (Raise e, w') ->
    exists t evs0 evs1 gone,
      t ∈ l /\ t ∈ lock_files (fs w) /\
      eviction env t evs1 (Raise e) gone /\
      lock_run ∅ evs0 = Some ∅ /\
      trace w' = (trace w ++ evs0 ++ evs1)%list /\
      (t ∈ memory_files (fs w') <-> gone = false).
Proof.
  induction l as [|x l IH]; intros w w' e Hrun; [discriminate|].
  cbn [for_in] in Hrun. unfold bind in Hrun.
  destruct (delete_step_spec env x w)
    as [[Hno Hstep]|(Hl & Hm & evs & r & gone & Hev & Hstep)]; rewrite Hstep in Hrun.
  - destruct (IH _ _ _ Hrun) as (t & evs0 & evs1 & g & Ht & ? & ? & ? & ? & ?).
    exists t, evs0, evs1, g. split; [by right|done].
  - destruct r as [[]|e1].
    + destruct (IH _ _ _ Hrun) as (t & evs0 & evs1 & g & Ht & Hlk & Hev' & Hl0 & Htr & Hg).
      exists t, (evs ++ evs0)%list, evs1, g.
      split; [by right|]. split; [done|]. split; [done|].
      destruct (eviction_lock_run env _ _ _ _ Hev) as (held & Hheld & Hempty).
      split; [by rewrite lock_run_app, Hheld, (Hempty eq_refl)|].
      split; [|done]. rewrite Htr. simpl. by rewrite <- !app_assoc.
    + simplify_eq Hrun; intros; subst.
      exists x, [], evs, gone. split; [left|]. split; [done|]. split; [done|].
      split; [done|]. split; [done|]. simpl. destruct gone; set_solver.
Qed.

(** X16. [delete_tensors] adds no entry to either directory and removes
    none but cache entries: whatever happens, the lock directory has the
    entries it had (the lock files it opens for writing are emptied, not
    added or removed), the clock was not read, the cache has only lost
    entries, and every entry it lost is a tensor of the set that had its
    lock artifact. *)
Theorem eviction_only_removes (env : Env) (expired : gset string) (w : World) :
  exists r w',
    delete_tensors env expired w = (r, w') /\
    lock_files (fs w') = lock_files (fs w) /\
    ticks w' = ticks w /\
    memory_files (fs w') ⊆ memory_files (fs w) /\
    memory_files (fs w) ∖ memory_files (fs w') ⊆ expired ∩ lock_files (fs w).
Proof.
  destruct (delete_tensors_spec env expired w) as (r & mem & evs & Hrun & Hmem & Hc & _).
  exists r, (after_calls mem evs w). split; [done|]. split; [done|]. split; [done|].
  simpl. split.
  - intros t Ht. by apply Hmem in Ht as [? _].
  - intros t Ht. apply elem_of_difference in Ht as [Hin Hout].
    destruct (decide (Remove t ∈ evs)) as [Hr|Hr]; [|exfalso; apply Hout, Hmem; by split].
    destruct (Hc _ Hr) as (t' & Hexp & Hlk & _ & Hcs).
    apply remove_in_critical_section in Hcs as ->. set_solver.
Qed.



(** X18. [delete_tensors] is idempotent: after a run that returned
    normally, a second run on the same set makes no call and changes
    nothing, whichever calls would fail. *)
Theorem eviction_is_idempotent (env : Env) (expired : gset string) (w w' : World) :
  delete_tensors env expired w = (Ok tt, w') ->
  delete_tensors env expired w' = (Ok tt, w').
Proof.
  unfold delete_tensors. intros Hrun. apply delete_loop_skip.
  intros t Ht. by eapply delete_loop_ok_gone.
Qed.

Lemma eviction_is_idempotent_witness :
  delete_tensors (Scenario.surroundings (fun _ => 0) []) {["c"; "d"]}
    (mkWorld (mkFS {["a"; "b"]} Scenario.cached) 0
       (critical_section "c" ++ critical_section "d")) =
  (Ok tt, mkWorld (mkFS {["a"; "b"]} Scenario.cached) 0
            (critical_section "c" ++ critical_section "d")).
Proof.
  refine (eviction_is_idempotent (Scenario.surroundings (fun _ => 0) []) {["c"; "d"]}
            Scenario.world0 _ _).
  vm_compute. reflexivity.
Defined.

(** X19. How [delete_tensors] can fail. The only exception it raises is
    the failure of one of the four calls on a tensor of the set that has
    its lock artifact. When the open or the lock fails, no lock is held
    and the cache file of that tensor is still there. When the removal
    fails, the cache file is still there and the exclusive lock of the
    tensor is left held: the unlock is never reached. When the unlock
    fails, the file is gone and the lock is left held. *)
Theorem failed_eviction_leaves_lock_held (env : Env) (expired : gset string)
    (w w' : World) (e : exn) :
  delete_tensors env expired w = (Raise e, w') ->
  exists t evs,
    t ∈ expired /\ t ∈ lock_files (fs w) /\
    trace w' = (trace w ++ evs)%list /\
    ((e = OSError (OpenW t) /\ lock_run ∅ evs = Some ∅ /\ t ∈ memory_files (fs w')) \/
     (e = OSError (LockEx t) /\ lock_run ∅ evs = Some ∅ /\ t ∈ memory_files (fs w')) \/
     (e = OSError (Remove t) /\ lock_run ∅ evs = Some {[t]} /\
      t ∈ memory_files (fs w')) \/
     (e = OSError (Unlock t) /\ lock_run ∅ evs = Some {[t]} /\
      t ∉ memory_files (fs w'))).
Proof.
  unfold delete_tensors. intros Hrun.
  destruct (delete_loop_raise env _ _ _ _ Hrun)
    as (t & evs0 & evs1 & gone & Ht & Hlk & Hev & Hl0 & Htr & Hg).
  exists t, (evs0 ++ evs1)%list. split; [by apply elem_of_set_iter in Ht|].
  split; [done|]. split; [done|]. rewrite lock_run_app, Hl0.
  assert (t ∈ ({[t]} ∪ ∅ : gset string)) as Hin by set_solver.
  assert (({[t]} ∪ ∅ : gset string) = {[t]}) as Hone by set_solver.
  inversion Hev; subst; cbn [lock_run]; rewrite ?(bool_decide_eq_true_2 _ Hin), ?Hone.
  - left. split; [done|]. split; [done|]. by apply Hg.
  - right; left. split; [done|]. split; [done|]. by apply Hg.
  - right; right; left. split; [done|]. split; [done|]. by apply Hg.
  - right; right; right. split; [done|]. split; [done|].
    intros Hmem. apply Hg in Hmem. discriminate.
Qed.

Lemma failed_eviction_leaves_lock_held_witness :
  exists t evs,
    t ∈ ({["c"; "d"]} : gset string) /\ t ∈ lock_files (fs Scenario.world0) /\
    [OpenW "c"; LockEx "c"] = (trace Scenario.world0 ++ evs)%list /\
    ((OSError (Remove "c") = OSError (OpenW t) /\ lock_run ∅ evs = Some ∅ /\
      t ∈ Scenario.cached) \/
     (OSError (Remove "c") = OSError (LockEx t) /\ lock_run ∅ evs = Some ∅ /\
      t ∈ Scenario.cached) \/
     (OSError (Remove "c") = OSError (Remove t) /\ lock_run ∅ evs = Some {[t]} /\
      t ∈ Scenario.cached) \/
     (OSError (Remove "c") = OSError (Unlock t) /\ lock_run ∅ evs = Some {[t]} /\
      t ∉ Scenario.cached)).
Proof.
  refine (failed_eviction_leaves_lock_held
            (Scenario.surroundings (fun _ => 0) [Remove "c"]) {["c"; "d"]}
            Scenario.world0
            (mkWorld (mkFS Scenario.cached Scenario.cached) 0 [OpenW "c"; LockEx "c"])
            (OSError (Remove "c")) _).
  vm_compute. reflexivity.
Defined.

(** ** Turns and the loop, further *)

(** With the map that [get_tensors] builds, the union loop finds every
    key. *)
Lemma running_tensors_of_get_tensors (manifest : string -> gset string)
    (models running_pods : list string) :
  exists live,
    running_tensors_of (get_tensors manifest models)
      (running_models_of models running_pods) = Ok live.
Proof.
  destruct (running_tensors_of_spec (get_tensors manifest models)
              (running_models_of models running_pods)) as (live & Hrun & _).
  - intros m Hm. apply elem_of_running_models in Hm as [Hm _].
    rewrite get_tensors_lookup, decide_True by done. by eexists.
  - by exists live.
Qed.

Lemma eviction_raise_fails (env : Env) (t : string) (evs : list call) (e : exn)
    (gone : bool) :
  eviction env t evs (Raise e) gone ->
  exists c, e = OSError c /\ fails env c = true /\ c ∈ critical_section t.
Proof.
  unfold critical_section. inversion 1; subst; eexists; (split; [done|]);
    (split; [done|]); set_solver.
Qed.

(** A turn of [node_collector] ends abnormally only by a failing call. *)
Lemma cycle_raise_fails (env : Env) (node_name : string) (models : list string)
    (manifest : string -> gset string) (pod_list : list Pod)
    (keep_alive_dict : gmap string Z) (w w' : World) (e : exn) :
  cycle env node_name models (get_tensors manifest models) pod_list keep_alive_dict w =
    (Raise e, w') ->
  exists c, e = OSError c /\ fails env c = true /\
    (c = Listdir \/
     exists t, c ∈ critical_section t /\ t ∈ lock_files (fs w) /\
               t ∈ memory_files (fs w)).
Proof.
  rewrite cycle_cases, reconcile_cases.
  destruct (running_tensors_of_get_tensors manifest models
              (running_pods_of node_name pod_list)) as [live ->].
  destruct (fails env Listdir) eqn:Hlist.
  - intros Hr. simplify_eq Hr; intros; subst. exists Listdir. auto.
  - destruct (get_expired_tensor_spec env (memory_files (fs w) ∖ live) keep_alive_dict
                (after_calls (memory_files (fs w)) [Sleep COLLECT_PERIOD; Listdir] w))
      as (expired & d' & -> & _ & He).
    simpl. unfold delete_tensors.
    destruct (for_in _ _ _ _) as [[[]|e1] w4] eqn:Hdel; [discriminate|].
    intros Hr. simplify_eq Hr; intros; subst.
    destruct (delete_loop_raise env _ _ _ _ Hdel)
      as (t & evs0 & evs1 & gone & Ht & Hlk & Hev & _).
    destruct (eviction_raise_fails _ _ _ _ _ Hev) as (c & -> & Hc & Hcs).
    exists c. split; [done|]. split; [done|]. right. exists t.
    split; [done|]. split; [done|].
    apply elem_of_set_iter, He in Ht as (i & since & Hi & _).
    apply position_in_iter in Hi as [Hi _]. set_solver.
Qed.

Lemma node_collector_loop_cons (env : Env) (node_name : string)
    (models : list string) (model_tensors : gmap string (gset string))
    (round : Round) (rounds : list Round) (keep_alive_dict : gmap string Z)
    (w : World) :
  node_collector_loop env node_name models model_tensors (round :: rounds)
    keep_alive_dict w =
  match cycle env node_name models model_tensors (api_pods round) keep_alive_dict
          (mkWorld (disturb round (fs w)) (ticks w) (trace w)) with
  | (Ok keep_alive_dict', w1) =>
      node_collector_loop env node_name models model_tensors rounds keep_alive_dict' w1
  | (Raise e, w1) => (Raise e, w1)
  end.
Proof. reflexivity. Qed.

(** X20. What can end the collector. With the map that [get_tensors]
    builds, a turn never raises [KeyError]: when it raises, a call failed,
    either the listing of the cache directory or one of the four calls of
    the eviction of a cached tensor that has its lock artifact. So the
    loop of [node_collector], as long as its pod listings are answered,
    either gets through its rounds or stops at a call that failed. *)
Theorem only_failing_calls_end_the_collector (env : Env) (node_name : string)
    (models : list string) (manifest : string -> gset string) :
  (forall (pod_list : list Pod) (keep_alive_dict : gmap string Z) (w w' : World)
          (e : exn),
     cycle env node_name models (get_tensors manifest models) pod_list
       keep_alive_dict w = (Raise e, w') ->
     exists c, e = OSError c /\ fails env c = true /\
       (c = Listdir \/
        exists t, c ∈ critical_section t /\ t ∈ lock_files (fs w) /\
                  t ∈ memory_files (fs w))) /\
  (forall (rounds : list Round) (w : World),
     (exists keep_alive_dict' w',
        node_collector env node_name models manifest rounds w =
          (Ok keep_alive_dict', w')) \/
     (exists c w',
        node_collector env node_name models manifest rounds w =
          (Raise (OSError c), w') /\ fails env c = true)).
Proof.
  split; [intros; by eapply cycle_raise_fails|].
  unfold node_collector. generalize (∅ : gmap string Z).
  intros d rounds. revert d.
  induction rounds as [|round rounds IH]; intros d w.
  - left. by eexists _, _.
  - rewrite node_collector_loop_cons.
    destruct (cycle env node_name models (get_tensors manifest models)
                (api_pods round) d _) as [[d1|e] w1] eqn:Hcycle.
    + apply IH.
    + right. destruct (cycle_raise_fails _ _ _ _ _ _ _ _ _ Hcycle) as (c & -> & Hc & _).
      by exists c, w1.
Qed.

Lemma only_failing_calls_end_the_collector_witness :
  exists c, OSError (Remove "c") = OSError c /\
    fails (Scenario.surroundings (fun _ => 65 * Scenario.second) [Remove "c"]) c = true /\
    (c = Listdir \/
     exists t, c ∈ critical_section t /\ t ∈ lock_files (fs Scenario.world0) /\
               t ∈ memory_files (fs Scenario.world0)).
Proof.
  refine (proj1 (only_failing_calls_end_the_collector
                   (Scenario.surroundings (fun _ => 65 * Scenario.second) [Remove "c"])
                   Scenario.node Scenario.models Scenario.manifest)
            Scenario.pods_m1 Scenario.tracked Scenario.world0
            (mkWorld (mkFS Scenario.cached Scenario.cached) 2
               [Sleep COLLECT_PERIOD; Listdir; OpenW "c"; LockEx "c"])
            (OSError (Remove "c")) _).
  vm_compute. reflexivity.
Defined.



(** X22. On a node where the other processes leave the two directories
    alone, the collector only ever removes cache files: after any number
    of turns, however they end, the lock directory is as it was, the
    cache has only lost entries, and each entry it lost had its lock
    artifact. *)
Theorem quiet_node_only_loses_cache_entries (env : Env) (node_name : string)
    (models : list string) (model_tensors : gmap string (gset string))
    (rounds : list Round) (keep_alive_dict : gmap string Z) (w w' : World)
    (r : outcome (gmap string Z)) :
  (forall round d, round ∈ rounds -> disturb round d = d) ->
  node_collector_loop env node_name models model_tensors rounds keep_alive_dict w =
    (r, w') ->
  lock_files (fs w') = lock_files (fs w) /\
  memory_files (fs w') ⊆ memory_files (fs w) /\
  memory_files (fs w) ∖ memory_files (fs w') ⊆ lock_files (fs w).
Proof.
  revert keep_alive_dict w.
  induction rounds as [|round rounds IH]; intros d w Hquiet Hloop.
  - simpl in Hloop. unfold ret in Hloop. simplify_eq Hloop; intros; subst. set_solver.
  - rewrite node_collector_loop_cons, (Hquiet round) in Hloop by left.
    destruct (cycle env node_name models model_tensors (api_pods round) d _)
      as [[d1|e] w1] eqn:Hcycle.
    + destruct (cycle_runs _ _ _ _ _ _ _ _ _ Hcycle) as (evs & _ & Hlk & Hmem & Hrm).
      destruct (IH d1 w1) as (Hlk' & Hsub & Hlost); [|done|].
      { intros round' d' Hr. apply Hquiet. by right. }
      simpl in *. split; [congruence|]. split.
      * intros t Ht. apply Hsub, Hmem in Ht. tauto.
      * intros t Ht. apply elem_of_difference in Ht as [Hin Hout].
        destruct (decide (t ∈ memory_files (fs w1))) as [Hin1|Hout1].
        -- rewrite <- Hlk. apply Hlost. set_solver.
        -- destruct (decide (Remove t ∈ evs)) as [Hr|Hr];
             [|exfalso; apply Hout1, Hmem; by split].
           by destruct (Hrm t Hr) as (? & ? & ? & ? & _ & _ & _ & _ & _ & ?).
    + simplify_eq Hloop; intros; subst.
      destruct (cycle_runs _ _ _ _ _ _ _ _ _ Hcycle) as (evs & _ & Hlk & Hmem & Hrm).
      simpl in *. split; [done|]. split.
      * intros t Ht. apply Hmem in Ht. tauto.
      * intros t Ht. apply elem_of_difference in Ht as [Hin Hout].
        destruct (decide (Remove t ∈ evs)) as [Hr|Hr];
          [|exfalso; apply Hout, Hmem; by split].
        by destruct (Hrm t Hr) as (? & ? & ? & ? & _ & _ & _ & _ & _ & ?).
Qed.

Lemma quiet_node_only_loses_cache_entries_witness :
  lock_files (fs (mkWorld (mkFS {["a"; "b"; "d"]} {["a"; "b"; "c"]}) 3
     ([Sleep COLLECT_PERIOD; Listdir] ++ critical_section "c"
        ++ [Sleep COLLECT_PERIOD; Listdir]))) =
    lock_files (fs Scenario.world_no_lock_d) /\
  ({["a"; "b"; "d"]} : gset string) ⊆ memory_files (fs Scenario.world_no_lock_d) /\
  memory_files (fs Scenario.world_no_lock_d) ∖ {["a"; "b"; "d"]} ⊆
    lock_files (fs Scenario.world_no_lock_d).
Proof.
  refine (quiet_node_only_loses_cache_entries
            (Scenario.surroundings (fun _ => 65 * Scenario.second) [])
            Scenario.node Scenario.models Scenario.model_tensors
            [mkRound Scenario.pods_m1 id; mkRound Scenario.pods_m1 id]
            Scenario.tracked Scenario.world_no_lock_d _ (Ok Scenario.tracked) _ _).
  - intros round d Hr. repeat (apply elem_of_cons in Hr as [->|Hr]; [reflexivity|]).
    inversion Hr.
  - vm_compute. reflexivity.
Defined.

(** X23. A node without workloads: when no pod of the listing is on this
    node, the live set is empty whatever the models are (no key is looked
    up), so every cached tensor is stale: after the first part of the
    turn the registry tracks what it tracked and the whole cache. *)
Theorem idle_node_makes_everything_stale (env : Env) (node_name : string)
    (models : list string) (model_tensors : gmap string (gset string))
    (pod_list : list Pod) (keep_alive_dict : gmap string Z) (w : World) :
  running_pods_of node_name pod_list = [] ->
  fails env Listdir = false ->
  running_tensors_of model_tensors
    (running_models_of models (running_pods_of node_name pod_list)) = Ok ∅ /\
  exists expired keep_alive_dict' w',
    reconcile env node_name models model_tensors pod_list keep_alive_dict w =
      (Ok (expired, keep_alive_dict'), w') /\
    dom keep_alive_dict' = dom keep_alive_dict ∪ memory_files (fs w) /\
    expired ⊆ memory_files (fs w) ∩ dom keep_alive_dict.
Proof.
  intros Hnone Hlist.
  assert (running_tensors_of model_tensors
            (running_models_of models (running_pods_of node_name pod_list)) = Ok ∅)
    as Hlive.
  { rewrite Hnone. unfold running_models_of.
    assert (filter (fun m => is_running m [] = true) models = []) as ->; [|done].
    induction models as [|m models IH]; [done|].
    by rewrite filter_cons_False by (simpl; discriminate). }
  split; [done|]. rewrite reconcile_cases, Hlive, Hlist.
  assert (memory_files (fs w) ∖ ∅ = memory_files (fs w)) as -> by set_solver.
  destruct (get_expired_tensor_spec env (memory_files (fs w)) keep_alive_dict
              (after_calls (memory_files (fs w)) [Sleep COLLECT_PERIOD; Listdir] w))
    as (expired & d' & Hrun & Hd & He).
  exists expired, d'. eexists. split; [done|]. split.
  - apply set_eq. intros t. rewrite elem_of_union, !elem_of_dom.
    specialize (Hd t). destruct (keep_alive_dict !! t) as [since|] eqn:Ht.
    + rewrite Hd. split; [by left|by eexists].
    + destruct Hd as [[Hno ->]|(i & Hi & ->)].
      * split; [by intros [? ?]|]. intros [[? ?]|?]; done.
      * apply position_in_iter in Hi as [Hi _]. split; [by right|by eexists].
  - intros t Ht. apply He in Ht as (i & since & Hi & Hs & _).
    apply position_in_iter in Hi as [Hi _].
    apply elem_of_intersection. split; [done|]. apply elem_of_dom. by eexists.
Qed.

Lemma idle_node_makes_everything_stale_witness :
  running_tensors_of Scenario.model_tensors
    (running_models_of Scenario.models
       (running_pods_of "nodeX" Scenario.pods_m1_m2)) = Ok ∅ /\
  exists expired keep_alive_dict' w',
    reconcile (Scenario.surroundings (fun _ => 0) []) "nodeX" Scenario.models
      Scenario.model_tensors Scenario.pods_m1_m2 ∅ Scenario.world0 =
      (Ok (expired, keep_alive_dict'), w') /\
    dom keep_alive_dict' = dom (∅ : gmap string Z) ∪ memory_files (fs Scenario.world0) /\
    expired ⊆ memory_files (fs Scenario.world0) ∩ dom (∅ : gmap string Z).
Proof.
  refine (idle_node_makes_everything_stale (Scenario.surroundings (fun _ => 0) [])
            "nodeX" Scenario.models Scenario.model_tensors Scenario.pods_m1_m2
            ∅ Scenario.world0 _ _).
  - vm_compute. reflexivity.
  - reflexivity.
Defined.

(** X24. Every turn begins by sleeping [COLLECT_PERIOD] seconds and
    lists the cache directory at most once, right after the sleep; every
    call after the listing is one of the four calls of the eviction of
    some tensor. *)
Theorem turn_sleeps_then_lists_once (env : Env) (node_name : string)
    (models : list string) (model_tensors : gmap string (gset string))
    (pod_list : list Pod) (keep_alive_dict : gmap string Z) (w : World) :
  exists r w' rest,
    cycle env node_name models model_tensors pod_list keep_alive_dict w = (r, w') /\
    trace w' = (trace w ++ Sleep 5 :: rest)%list /\
    (rest = [] \/
     exists evs, rest = Listdir :: evs /\
                 forall c, c ∈ evs -> exists t, c ∈ critical_section t).
Proof.
  destruct (cycle_early_or_late env node_name models model_tensors pod_list
              keep_alive_dict w) as [[e He]|(live & Hlive & Hlist)].
  - eexists _, _, []. split; [exact He|]. split; [done|by left].
  - destruct (cycle_anatomy env node_name models model_tensors pod_list
                keep_alive_dict w live Hlive Hlist)
      as (expired & d' & r0 & mem & evs & _ & _ & _ & Hcyc & Htr & _ & _ & _ & _ & Hc & _).
    eexists _, _, (Listdir :: evs). split; [exact Hcyc|]. split; [done|].
    right. exists evs. split; [done|]. intros c Hcin.
    destruct (Hc c Hcin) as (t & _ & _ & _ & ?). by exists t.
Qed.
